(** * PoA lock script: a shallow embedding of [c/poa.c]

    The script guards a cell with a proof-of-authority rule: a fixed set of
    aggregators take turns ("rounds") issuing subblocks.  The development
    follows the C source function by function:

    - [parse_poa_setup]             (poa.c 63-94)
    - [validate_consensus_signing]  (poa.c 96-137)
    - [validate_single_signing]     (poa.c 139-160)
    - [look_for_poa_cell]           (poa.c 169-205)
    - [main]                        (poa.c 207-463)

    Machine integers are values of [Z] with their wrap-around written out,
    buffers are lists of bytes, and the host (the CKB syscalls) is a record
    describing what every syscall of the script answers. *)

From Stdlib Require Import ZArith List Bool Lia.
From Stdlib Require Import Strings.Byte.
From Stdlib Require Import Sorting.Permutation.
Import ListNotations.
Local Open Scope Z_scope.

(** ** Constants *)

Module Consts.

(** Return codes of the CKB syscalls ([ckb_consts.h]). *)
Definition CKB_SUCCESS : Z := 0.
Definition CKB_INDEX_OUT_OF_BOUND : Z := 1.
Definition CKB_ITEM_MISSING : Z := 2.
Definition CKB_LENGTH_NOT_ENOUGH : Z := 3.
Definition CKB_INVALID_DATA : Z := 4.

(** Error codes of the script itself (poa.c 40-42). *)
Definition ERROR_TRANSACTION : Z := -1.
Definition ERROR_ENCODING : Z := -2.
Definition ERROR_DYNAMIC_LOADING : Z := -3.

(** Sizes (poa.c 32-38). *)
Definition SCRIPT_BUFFER_SIZE : Z := 128.
Definition POA_BUFFER_SIZE : Z := 16384.
Definition IDENTITY_SIZE : Z := 32.

(** [size_t] is 64 bits wide on the RV64 target. *)
Definition SIZE_MAX : Z := 2 ^ 64 - 1.

End Consts.
Export Consts.

(** ** Machine arithmetic *)

Definition wrap8 (z : Z) : Z := z mod 2 ^ 8.
Definition wrap32 (z : Z) : Z := z mod 2 ^ 32.
Definition wrap64 (z : Z) : Z := z mod 2 ^ 64.

(** The value of an [int] read back from its 32-bit pattern. *)
Definition sign_extend32 (z : Z) : Z :=
  let w := wrap32 z in
  if w <? 2 ^ 31 then w else w - 2 ^ 32.

(** [a << k] on operands of type [int].  The C standard defines it only for
    [0 <= k < 32] and a result that fits; outside that range the model takes
    what the target computes: the script runs on CKB-VM (RV64), where the
    shift of an [int] is the [sllw] instruction, which uses the low five
    bits of the count and sign-extends the 32-bit result. *)
Definition int_shl (a k : Z) : Z :=
  sign_extend32 (Z.shiftl a (k mod 32)).

(** Conversion of a (signed) [int] to [uint64_t]. *)
Definition to_uint64 (z : Z) : Z := wrap64 z.

(** ** Bytes and buffers *)

Definition byte_val (b : byte) : Z := Z.of_N (Byte.to_N b).

Definition byte_of_Z (z : Z) : byte :=
  match Byte.of_N (Z.to_N (z mod 256)) with
  | Some b => b
  | None => x00
  end.

(** [buf[i]] as a number; reads past the buffer are not made by the script
    (every read is guarded by a length check) and give 0 here. *)
Definition byte_at (buf : list byte) (i : nat) : Z :=
  byte_val (nth i buf x00).

(** Little-endian value of a run of bytes: what a [uint16_t], [uint32_t] or
    [uint64_t] read through a cast pointer gives on the little-endian
    target. *)
Fixpoint le_decode (bs : list byte) : Z :=
  match bs with
  | [] => 0
  | b :: rest => byte_val b + 256 * le_decode rest
  end.

(** [n] bytes of [v], little-endian (used to build concrete buffers). *)
Fixpoint le_encode (n : nat) (v : Z) : list byte :=
  match n with
  | O => []
  | S n' => byte_of_Z v :: le_encode n' (v / 256)
  end.

(** The [width] bytes of [buf] starting at [off]. *)
Definition slice (buf : list byte) (off width : nat) : list byte :=
  firstn width (skipn off buf).

Definition read_le (buf : list byte) (off width : nat) : Z :=
  le_decode (slice buf off width).

Fixpoint bytes_eqb (a b : list byte) : bool :=
  match a, b with
  | [], [] => true
  | x :: a', y :: b' => Byte.eqb x y && bytes_eqb a' b'
  | _, _ => false
  end.

(** [memcmp(a, b, n) == 0]: the first [n] bytes of both buffers agree. *)
Definition memcmp_eq (a b : list byte) (n : Z) : bool :=
  bytes_eqb (firstn (Z.to_nat n) a) (firstn (Z.to_nat n) b).

(** ** Results of fallible steps *)

Inductive result (A : Type) : Type :=
| Ok (a : A)
| Err (code : Z).
Arguments Ok {A} a.
Arguments Err {A} code.

(** ** The aggregator set (poa.c 50-94) *)

Record PoASetup : Type := {
  source_data : list byte;
  interval_uses_seconds : bool;
  identity_size : Z;
  aggregator_number : Z;
  aggregator_change_threshold : Z;
  subblock_intervals : Z;
  subblocks_per_interval : Z;
  identities : list byte
}.

(** The record [parse_poa_setup] fills in from a buffer. *)
Definition poa_setup_of (data : list byte) : PoASetup :=
  {| source_data := data;
     interval_uses_seconds := Z.land (byte_at data 0) 1 =? 1;
     identity_size := byte_at data 1;
     aggregator_number := byte_at data 2;
     aggregator_change_threshold := byte_at data 3;
     subblock_intervals := read_le data 4 4;
     subblocks_per_interval := read_le data 8 4;
     identities := skipn 12 data |}.

Definition parse_poa_setup (data : list byte) : result PoASetup :=
  let source_length := Z.of_nat (length data) in
  if source_length <? 12 then Err ERROR_ENCODING
  else
    let output := poa_setup_of data in
    if identity_size output >? IDENTITY_SIZE then Err ERROR_ENCODING
    else if aggregator_change_threshold output >? aggregator_number output
    then Err ERROR_ENCODING
    else if negb (source_length =?
                  12 + identity_size output * aggregator_number output)
    then Err ERROR_ENCODING
    else Ok output.

(** ** The host: what the syscalls answer

    A field read through [ckb_load_cell_by_field], [ckb_load_cell_data] or
    [ckb_load_input_by_field] answers a return code and the field's bytes:
    the syscall copies as much of the field as the caller's buffer holds and
    stores the field's full length in [len]. *)

Definition FieldRead : Type := (Z * list byte)%type.

Definition read_ret (r : FieldRead) : Z := fst r.
Definition read_len (r : FieldRead) : Z := Z.of_nat (length (snd r)).
(** What a buffer of [cap] bytes holds after the read. *)
Definition read_buf (r : FieldRead) (cap : nat) : list byte := firstn cap (snd r).

Record Cell : Type := {
  cell_lock_hash : FieldRead;  (* CKB_CELL_FIELD_LOCK_HASH *)
  cell_type : FieldRead;       (* CKB_CELL_FIELD_TYPE *)
  cell_data : FieldRead        (* ckb_load_cell_data *)
}.

(** An input of the script's own group, with its [since] field. *)
Record GroupInput : Type := {
  since_field : FieldRead      (* CKB_INPUT_FIELD_SINCE *)
}.

(** The script's own [Script] structure as [main] gets it (poa.c 222-238):
    the return code of [ckb_checked_load_script], and what the molecule
    reader of the CKB C library ([MolReader_Script_verify],
    [MolReader_Script_get_args], [MolReader_Bytes_raw_bytes]) makes of the
    loaded bytes: [None] when verification fails, the raw bytes of the args
    otherwise. *)
Record ScriptView : Type := {
  script_load_ret : Z;
  script_args : option (list byte)
}.

(** A side of the transaction is the list of its cells in index order; a
    read at an index past the list answers [CKB_INDEX_OUT_OF_BOUND]. *)
Record Transaction : Type := {
  tx_script : ScriptView;
  tx_cell_deps : list Cell;
  tx_inputs : list Cell;
  tx_outputs : list Cell;
  tx_group_inputs : list GroupInput;
  tx_group_outputs : list Cell
}.

(** [ckb_load_cell(NULL, &len, 0, index, source)] with [len = 0]: the host
    reports the cell's length and succeeds when the cell exists. *)
Definition ckb_load_cell_probe {A : Type} (side : list A) (index : nat) : Z :=
  match nth_error side index with
  | Some _ => CKB_SUCCESS
  | None => CKB_INDEX_OUT_OF_BOUND
  end.

(** [ckb_load_cell_data(buf, &len, 0, index, source)]. *)
Definition ckb_load_cell_data (side : list Cell) (index : Z) : FieldRead :=
  match nth_error side (Z.to_nat index) with
  | Some c => cell_data c
  | None => (CKB_INDEX_OUT_OF_BOUND, [])
  end.

(** [ckb_load_input_by_field(buf, &len, 0, 0, CKB_SOURCE_GROUP_INPUT,
    CKB_INPUT_FIELD_SINCE)]. *)
Definition ckb_load_group_since (tx : Transaction) : FieldRead :=
  match tx_group_inputs tx with
  | g :: _ => since_field g
  | [] => (CKB_INDEX_OUT_OF_BOUND, [])
  end.

(** ** Signing checks (poa.c 96-160) *)

(** [mask[i]] of the four 64-bit words. *)
Definition mask_word (mask : list Z) (i : Z) : Z := nth (Z.to_nat i) mask 0.

Fixpoint list_set (l : list Z) (i : nat) (v : Z) : list Z :=
  match l, i with
  | [], _ => []
  | _ :: rest, O => v :: rest
  | x :: rest, S i' => x :: list_set rest i' v
  end.

(** [((mask[k / 64] >> (k % 64)) & 1) != 0]  (poa.c 117-118). *)
Definition mask_test (mask : list Z) (k : Z) : bool :=
  negb (Z.land (Z.shiftr (mask_word mask (k / 64)) (k mod 64)) 1 =? 0).

(** [mask[k / 64] |= 1 << (k % 64)]  (poa.c 131).  The literal [1] is an
    [int], so the shift is a 32-bit shift whose result is converted to
    [uint64_t] for the [|=]. *)
Definition mask_mark (mask : list Z) (k : Z) : list Z :=
  list_set mask (Z.to_nat (k / 64))
           (Z.lor (mask_word mask (k / 64)) (to_uint64 (int_shl 1 (k mod 64)))).

(** [&identity_buffer[k * identity_size]]. *)
Definition identity_at (identity_buffer : list byte) (identity_size k : Z)
  : list byte :=
  skipn (Z.to_nat (k * identity_size)) identity_buffer.

(** The inner [for] loop (poa.c 115-124): starting at [found_identity], with
    [n] identities left before [identity_count], stop at the first identity
    that is not yet marked and that the hash matches; the result is the final
    value of [found_identity] ([identity_count] when nothing matched). *)
Fixpoint find_identity (mask : list Z) (hash identity_buffer : list byte)
         (identity_size : Z) (n : nat) (found_identity : Z) : Z :=
  match n with
  | O => found_identity
  | S n' =>
      if negb (mask_test mask found_identity)
         && memcmp_eq hash (identity_at identity_buffer identity_size found_identity)
                      identity_size
      then found_identity
      else find_identity mask hash identity_buffer identity_size n'
                         (found_identity + 1)
  end.

(** The [while] loop of [validate_consensus_signing] (poa.c 103-134), walking
    the inputs left from index [current] on. *)
Fixpoint consensus_loop (identity_buffer : list byte)
         (identity_size identity_count aggregator_change_threshold : Z)
         (inputs : list Cell) (current : Z) (mask : list Z) (found : Z) : Z :=
  if current <? SIZE_MAX then
    match inputs with
    | [] => ERROR_ENCODING
    | c :: rest =>
        let ret := read_ret (cell_lock_hash c) in
        if ret =? CKB_INDEX_OUT_OF_BOUND then ERROR_ENCODING
        else if negb (ret =? CKB_SUCCESS) then ret
        else
          let hash := read_buf (cell_lock_hash c) 32 in
          let found_identity :=
            find_identity mask hash identity_buffer identity_size
                          (Z.to_nat identity_count) 0 in
          if found_identity <? identity_count then
            let found' := wrap8 (found + 1) in
            if found' =? aggregator_change_threshold then CKB_SUCCESS
            else consensus_loop identity_buffer identity_size identity_count
                                aggregator_change_threshold rest (current + 1)
                                (mask_mark mask found_identity) found'
          else consensus_loop identity_buffer identity_size identity_count
                              aggregator_change_threshold rest (current + 1)
                              mask found
    end
  else ERROR_ENCODING.

Definition validate_consensus_signing (identity_buffer : list byte)
           (identity_size identity_count aggregator_change_threshold : Z)
           (inputs : list Cell) : Z :=
  consensus_loop identity_buffer identity_size identity_count
                 aggregator_change_threshold inputs 0 [0; 0; 0; 0] 0.

(** The same loop with a ghost log: the identity index credited at each
    increment of [found], oldest first. *)
Fixpoint consensus_trace (identity_buffer : list byte)
         (identity_size identity_count aggregator_change_threshold : Z)
         (inputs : list Cell) (current : Z) (mask : list Z) (found : Z)
         (credited : list Z) : Z * list Z :=
  if current <? SIZE_MAX then
    match inputs with
    | [] => (ERROR_ENCODING, credited)
    | c :: rest =>
        let ret := read_ret (cell_lock_hash c) in
        if ret =? CKB_INDEX_OUT_OF_BOUND then (ERROR_ENCODING, credited)
        else if negb (ret =? CKB_SUCCESS) then (ret, credited)
        else
          let hash := read_buf (cell_lock_hash c) 32 in
          let found_identity :=
            find_identity mask hash identity_buffer identity_size
                          (Z.to_nat identity_count) 0 in
          if found_identity <? identity_count then
            let found' := wrap8 (found + 1) in
            let credited' := credited ++ [found_identity] in
            if found' =? aggregator_change_threshold
            then (CKB_SUCCESS, credited')
            else consensus_trace identity_buffer identity_size identity_count
                                 aggregator_change_threshold rest (current + 1)
                                 (mask_mark mask found_identity) found' credited'
          else consensus_trace identity_buffer identity_size identity_count
                               aggregator_change_threshold rest (current + 1)
                               mask found credited
    end
  else (ERROR_ENCODING, credited).

Definition consensus_credits (identity_buffer : list byte)
           (identity_size identity_count aggregator_change_threshold : Z)
           (inputs : list Cell) : Z * list Z :=
  consensus_trace identity_buffer identity_size identity_count
                  aggregator_change_threshold inputs 0 [0; 0; 0; 0] 0 [].

(** The [while] loop of [validate_single_signing] (poa.c 141-157). *)
Fixpoint single_loop (identity : list byte) (identity_size : Z)
         (inputs : list Cell) (current : Z) : Z :=
  if current <? SIZE_MAX then
    match inputs with
    | [] => ERROR_ENCODING
    | c :: rest =>
        let ret := read_ret (cell_lock_hash c) in
        if ret =? CKB_INDEX_OUT_OF_BOUND then ERROR_ENCODING
        else if negb (ret =? CKB_SUCCESS) then ret
        else if memcmp_eq (read_buf (cell_lock_hash c) 32) identity identity_size
        then CKB_SUCCESS
        else single_loop identity identity_size rest (current + 1)
    end
  else ERROR_ENCODING.

Definition validate_single_signing (identity : list byte) (identity_size : Z)
           (inputs : list Cell) : Z :=
  single_loop identity identity_size inputs 0.

(** ** The cell locator (poa.c 162-205) *)

Definition type_id_script_prefix : list byte :=
  [ x55; x00; x00; x00; x10; x00; x00; x00; x30; x00; x00;
    x00; x31; x00; x00; x00; x00; x00; x00; x00; x00; x00;
    x00; x00; x00; x00; x00; x00; x00; x00; x00; x00; x00;
    x00; x00; x00; x00; x00; x00; x00; x00; x54; x59; x50;
    x45; x5f; x49; x44; x01; x20; x00; x00; x00 ].

(** The test of poa.c 183-184 on the 85-byte [script] buffer and [len]. *)
Definition is_poa_cell (type_id : list byte) (r : FieldRead) : bool :=
  let script := read_buf r 85 in
  (read_len r =? 85)
  && memcmp_eq type_id_script_prefix script 53
  && memcmp_eq type_id (skipn 53 script) 32.

(** The [while] loop of [look_for_poa_cell] (poa.c 173-199) over the cells
    left from index [current] on.  [Err] is the early [return] of line 189;
    [Ok] carries [found_index] when the loop is left, which happens when
    [running] is cleared by the [default] case or when [current] reaches
    [SIZE_MAX]. *)
Fixpoint look_loop (type_id : list byte) (cells : list Cell)
         (current found_index : Z) : result Z :=
  if current <? SIZE_MAX then
    match cells with
    | [] => Ok found_index
    | c :: rest =>
        let ret := read_ret (cell_type c) in
        if ret =? CKB_ITEM_MISSING then
          look_loop type_id rest (current + 1) found_index
        else if ret =? CKB_SUCCESS then
          if is_poa_cell type_id (cell_type c) then
            if negb (found_index =? SIZE_MAX) then Err ERROR_ENCODING
            else look_loop type_id rest (current + 1) current
          else look_loop type_id rest (current + 1) found_index
        else Ok found_index
    end
  else Ok found_index.

(** [Ok i] is [CKB_SUCCESS] with [*index = i]; [Err code] is the return of
    [code] with [*index] left alone. *)
Definition look_for_poa_cell (type_id : list byte) (cells : list Cell)
  : result Z :=
  match look_loop type_id cells 0 SIZE_MAX with
  | Err code => Err code
  | Ok found_index =>
      if found_index =? SIZE_MAX then Err CKB_INDEX_OUT_OF_BOUND
      else Ok found_index
  end.

(** ** The round state carried by a PoA data cell (poa.c 309-321) *)

Record SubblockInfo : Type := {
  round_initial_subtime : Z;
  subblock_subtime : Z;
  subblock_index : Z;
  aggregator_index : Z
}.

Definition subblock_info_of (buf : list byte) : SubblockInfo :=
  {| round_initial_subtime := read_le buf 0 8;
     subblock_subtime := read_le buf 8 8;
     subblock_index := read_le buf 16 4;
     aggregator_index := read_le buf 20 2 |}.

(** ** [main] (poa.c 207-463) *)

(** What the block-production path has in hand after its loads. *)
Record NewBlock : Type := {
  nb_setup : PoASetup;
  nb_last : SubblockInfo;
  nb_current : SubblockInfo;
  nb_since : Z
}.

(** Loading a PoA data cell found on [side] (poa.c 276-286, 295-305). *)
Definition load_poa_data (side : list Cell) (index : Z) : result (list byte) :=
  let r := ckb_load_cell_data side index in
  if negb (read_ret r =? CKB_SUCCESS) then Err (read_ret r)
  else if negb (read_len r =? 22) then Err ERROR_ENCODING
  else Ok (read_buf r 22).

(** Loading a PoA setup cell found on [side] and parsing it
    (poa.c 253-268, 418-434, 442-458). *)
Definition load_poa_setup (side : list Cell) (index : Z) : result PoASetup :=
  let r := ckb_load_cell_data side index in
  if negb (read_ret r =? CKB_SUCCESS) then Err (read_ret r)
  else if read_len r >? POA_BUFFER_SIZE then Err ERROR_ENCODING
  else parse_poa_setup (read_buf r (Z.to_nat POA_BUFFER_SIZE)).

(** poa.c 253-339: the loads of the block-production path, up to and
    including the raw [since] of the group input. *)
Definition load_new_block (tx : Transaction) (args : list byte)
           (dep_poa_setup_cell_index : Z) : result NewBlock :=
  match load_poa_setup (tx_cell_deps tx) dep_poa_setup_cell_index with
  | Err code => Err code
  | Ok poa_setup =>
  match look_for_poa_cell (skipn 32 args) (tx_inputs tx) with
  | Err code => Err code
  | Ok input_poa_data_cell_index =>
  match load_poa_data (tx_inputs tx) input_poa_data_cell_index with
  | Err code => Err code
  | Ok last_subblock_info =>
  match look_for_poa_cell (skipn 32 args) (tx_outputs tx) with
  | Err code => Err code
  | Ok output_poa_data_cell_index =>
  match load_poa_data (tx_outputs tx) output_poa_data_cell_index with
  | Err code => Err code
  | Ok current_subblock_info =>
      let last := subblock_info_of last_subblock_info in
      let current := subblock_info_of current_subblock_info in
      if aggregator_index current >=? aggregator_number poa_setup
      then Err ERROR_ENCODING
      else
        let r := ckb_load_group_since tx in
        if negb (read_ret r =? CKB_SUCCESS) then Err (read_ret r)
        else if negb (read_len r =? 8) then Err ERROR_ENCODING
        else Ok {| nb_setup := poa_setup;
                   nb_last := last;
                   nb_current := current;
                   nb_since := le_decode (read_buf r 8) |}
  end end end end end.

(** poa.c 392-398: the number of rounds between the last aggregator and the
    current one, a full cycle when they are the same. *)
Definition rollover_steps (current_aggregator_index aggregator_number
                           last_aggregator_index : Z) : Z :=
  let steps :=
    wrap64 (wrap64 (current_aggregator_index + aggregator_number)
            - last_aggregator_index)
    mod aggregator_number in
  if steps =? 0 then aggregator_number else steps.

(** poa.c 340-404: the checks on [since] and on the round, on the loaded
    values.  The result is [CKB_SUCCESS] when every check passes. *)
Definition check_new_block (nb : NewBlock) : Z :=
  let poa_setup := nb_setup nb in
  let last := nb_last nb in
  let current := nb_current nb in
  if negb (Z.shiftr (nb_since nb) 56
           =? (if interval_uses_seconds poa_setup then 64 else 0))
  then ERROR_ENCODING
  else
    let since := Z.land (nb_since nb) 72057594037927935 in
    if negb (subblock_subtime current =? since) then ERROR_ENCODING
    else if since <? wrap64 (round_initial_subtime last
                             + subblock_intervals poa_setup) then
      if negb (round_initial_subtime current =? round_initial_subtime last)
      then ERROR_ENCODING
      else if subblock_subtime current <? subblock_subtime last
      then ERROR_ENCODING
      else if negb (aggregator_index current =? aggregator_index last)
      then ERROR_ENCODING
      else if negb (subblock_index current =? wrap32 (subblock_index last + 1))
              || (subblock_index current >=? subblocks_per_interval poa_setup)
      then ERROR_ENCODING
      else CKB_SUCCESS
    else
      if negb (round_initial_subtime current =? subblock_subtime current)
      then ERROR_ENCODING
      else if negb (subblock_index current =? 0) then ERROR_ENCODING
      else
        let steps := rollover_steps (aggregator_index current)
                                    (aggregator_number poa_setup)
                                    (aggregator_index last) in
        let duration := wrap64 (steps * subblock_intervals poa_setup) in
        if since <? wrap64 (duration + round_initial_subtime last)
        then ERROR_ENCODING
        else CKB_SUCCESS.

(** poa.c 251-410: "Normal new blocks". *)
Definition main_new_block (tx : Transaction) (args : list byte)
           (dep_poa_setup_cell_index : Z) : Z :=
  match load_new_block tx args dep_poa_setup_cell_index with
  | Err code => code
  | Ok nb =>
      let ret := check_new_block nb in
      if negb (ret =? CKB_SUCCESS) then ret
      else
        let poa_setup := nb_setup nb in
        validate_single_signing
          (identity_at (identities poa_setup) (identity_size poa_setup)
                       (aggregator_index (nb_current nb)))
          (identity_size poa_setup) (tx_inputs tx)
  end.

(** poa.c 411-462: "PoA consensus mode". *)
Definition main_consensus (tx : Transaction) (args : list byte) : Z :=
  match look_for_poa_cell args (tx_inputs tx) with
  | Err code => code
  | Ok input_poa_setup_cell_index =>
  match load_poa_setup (tx_inputs tx) input_poa_setup_cell_index with
  | Err code => code
  | Ok poa_setup =>
  match look_for_poa_cell args (tx_outputs tx) with
  | Err code => code
  | Ok output_poa_setup_cell_index =>
  match load_poa_setup (tx_outputs tx) output_poa_setup_cell_index with
  | Err code => code
  | Ok new_poa_setup =>
      validate_consensus_signing
        (identities poa_setup) (identity_size poa_setup)
        (aggregator_number poa_setup) (aggregator_change_threshold poa_setup)
        (tx_inputs tx)
  end end end end.

Definition main (tx : Transaction) : Z :=
  if negb (ckb_load_cell_probe (tx_group_inputs tx) 1 =? CKB_INDEX_OUT_OF_BOUND)
  then ERROR_TRANSACTION
  else if negb (ckb_load_cell_probe (tx_group_outputs tx) 1
                =? CKB_INDEX_OUT_OF_BOUND)
  then ERROR_TRANSACTION
  else
    let ret := script_load_ret (tx_script tx) in
    if negb (ret =? CKB_SUCCESS) then ret
    else
      match script_args (tx_script tx) with
      | None => ERROR_ENCODING
      | Some args =>
          if negb (Z.of_nat (length args) =? 64) then ERROR_ENCODING
          else
            match look_for_poa_cell args (tx_cell_deps tx) with
            | Ok dep_poa_setup_cell_index =>
                main_new_block tx args dep_poa_setup_cell_index
            | Err ret =>
                if negb (ret =? CKB_INDEX_OUT_OF_BOUND) then ret
                else main_consensus tx args
            end
      end.

(** ** Vocabulary of the statements *)

(** The host delivers the lock hash of the cell. *)
Definition lock_hash_readable (c : Cell) : Prop :=
  read_ret (cell_lock_hash c) = CKB_SUCCESS.

(** The lock hash of the cell equals [identity] on the first
    [identity_size] bytes. *)
Definition signed_by (identity : list byte) (identity_size : Z) (c : Cell)
  : Prop :=
  firstn (Z.to_nat identity_size) (snd (cell_lock_hash c))
  = firstn (Z.to_nat identity_size) identity.

(** [main] runs its block-production path on [tx] and the loads of that
    path deliver [nb]: the setup cell of the script's args is among the
    dependencies, and the setup, both data cells and the [since] of the
    group input are read and decoded. *)
Definition block_production (tx : Transaction) (nb : NewBlock) : Prop :=
  exists args dep_index,
    script_load_ret (tx_script tx) = CKB_SUCCESS
    /\ script_args (tx_script tx) = Some args
    /\ look_for_poa_cell args (tx_cell_deps tx) = Ok dep_index
    /\ load_new_block tx args dep_index = Ok nb.

(** The [since] magnitude: the low 56 bits. *)
Definition since_value (since : Z) : Z := Z.land since (2 ^ 56 - 1).

(** The two top bits of the 64-bit [since]. *)
Definition since_top_bits (since : Z) : Z := Z.shiftr since 62.

(** The mask agrees with the log on the first 32 identities: the bit of an
    identity is set exactly when the identity has been credited. *)
Definition mask_tracks (mask : list Z) (credited : list Z) : Prop :=
  forall k, 0 <= k < 32 -> (mask_test mask k = true <-> In k credited).

(** [k] is an index into a setup of [n] identities. *)
Definition index_below (n k : Z) : Prop := 0 <= k < n.

(** Some input has a readable lock hash that equals identity [k] of the
    buffer on its first [identity_size] bytes. *)
Definition backed_by (identity_buffer : list byte) (identity_size : Z)
           (inputs : list Cell) (k : Z) : Prop :=
  Exists (fun c => lock_hash_readable c
                   /\ signed_by (identity_at identity_buffer identity_size k)
                                identity_size c) inputs.

(** ** Concrete transactions

    Builders for the buffers and cells that the examples below run the
    script on. *)

Module Build.

Definition lock_hash_of (b : byte) : list byte := repeat b 32.

Definition type_id_of (b : byte) : list byte := repeat b 32.

(** A cell with no type script, locked by [lock]. *)
Definition plain_cell (lock : list byte) : Cell :=
  {| cell_lock_hash := (CKB_SUCCESS, lock);
     cell_type := (CKB_ITEM_MISSING, []);
     cell_data := (CKB_SUCCESS, []) |}.

(** A cell whose type script is the type-id script of [type_id]. *)
Definition poa_cell (type_id lock data : list byte) : Cell :=
  {| cell_lock_hash := (CKB_SUCCESS, lock);
     cell_type := (CKB_SUCCESS, type_id_script_prefix ++ type_id);
     cell_data := (CKB_SUCCESS, data) |}.

(** A cell whose type field the host fails to read with [code]. *)
Definition unreadable_cell (code : Z) : Cell :=
  {| cell_lock_hash := (CKB_SUCCESS, lock_hash_of x00);
     cell_type := (code, []);
     cell_data := (CKB_SUCCESS, []) |}.

Definition setup_bytes (uses_seconds : bool)
           (identity_size aggregator_number threshold interval per_interval : Z)
           (identities : list byte) : list byte :=
  [ (if uses_seconds then x01 else x00);
    byte_of_Z identity_size; byte_of_Z aggregator_number; byte_of_Z threshold ]
  ++ le_encode 4 interval ++ le_encode 4 per_interval ++ identities.

Definition subblock_bytes (info : SubblockInfo) : list byte :=
  le_encode 8 (round_initial_subtime info)
  ++ le_encode 8 (subblock_subtime info)
  ++ le_encode 4 (subblock_index info)
  ++ le_encode 2 (aggregator_index info).

Definition since_timestamp (t : Z) : Z := Z.lor (Z.shiftl 64 56) t.

Definition group_input (since : Z) : GroupInput :=
  {| since_field := (CKB_SUCCESS, le_encode 8 since) |}.

Definition setup_id : list byte := type_id_of xc0.
Definition data_id : list byte := type_id_of xd0.

Definition script_view : ScriptView :=
  {| script_load_ret := CKB_SUCCESS;
     script_args := Some (setup_id ++ data_id) |}.

(** Three aggregators with two-byte identities, a 100 second interval and
    at most 5 subblocks per interval; two signatures change the set. *)
Definition three_aggregators : list byte :=
  setup_bytes true 2 3 2 100 5 [xa0; xa0; xa1; xa1; xa2; xa2].

(** A block-production transaction: the setup cell as a dependency, the
    data cell going from [last] to [current], the group input carrying
    [since], and one more input locked by [signer]. *)
Definition new_block_tx (last current : SubblockInfo) (since : Z)
           (signer : byte) : Transaction :=
  {| tx_script := script_view;
     tx_cell_deps := [ poa_cell setup_id (lock_hash_of x00) three_aggregators ];
     tx_inputs := [ poa_cell data_id (lock_hash_of x01) (subblock_bytes last);
                    plain_cell (lock_hash_of signer) ];
     tx_outputs := [ poa_cell data_id (lock_hash_of x01)
                              (subblock_bytes current) ];
     tx_group_inputs := [ group_input since ];
     tx_group_outputs := [] |}.

Definition info (rit st idx agg : Z) : SubblockInfo :=
  {| round_initial_subtime := rit; subblock_subtime := st;
     subblock_index := idx; aggregator_index := agg |}.

(** Aggregator 0 continues its round at time 1050. *)
Definition same_round_tx : Transaction :=
  new_block_tx (info 1000 1000 0 0) (info 1000 1050 1 0)
               (since_timestamp 1050) xa0.

(** Aggregator 1 takes over at time 1105. *)
Definition rollover_tx : Transaction :=
  new_block_tx (info 1000 1000 0 0) (info 1105 1105 0 1)
               (since_timestamp 1105) xa1.

(** The data cell consumed names aggregator 7 of 3; aggregator 1 takes
    over at time 1105. *)
Definition stray_index_tx : Transaction :=
  new_block_tx (info 1000 1000 0 7) (info 1105 1105 0 1)
               (since_timestamp 1105) xa1.

(** Two inputs of the script's own group. *)
Definition two_group_inputs_tx : Transaction :=
  {| tx_script := script_view;
     tx_cell_deps := tx_cell_deps same_round_tx;
     tx_inputs := tx_inputs same_round_tx;
     tx_outputs := tx_outputs same_round_tx;
     tx_group_inputs := [ group_input (since_timestamp 1050);
                          group_input (since_timestamp 1050) ];
     tx_group_outputs := [] |}.

(** What the loads of [stray_index_tx] deliver. *)
Definition stray_index_block : NewBlock :=
  {| nb_setup := poa_setup_of three_aggregators;
     nb_last := info 1000 1000 0 7;
     nb_current := info 1105 1105 0 1;
     nb_since := since_timestamp 1105 |}.

Definition same_round_block : NewBlock :=
  {| nb_setup := poa_setup_of three_aggregators;
     nb_last := info 1000 1000 0 0;
     nb_current := info 1000 1050 1 0;
     nb_since := since_timestamp 1050 |}.

Definition rollover_block : NewBlock :=
  {| nb_setup := poa_setup_of three_aggregators;
     nb_last := info 1000 1000 0 0;
     nb_current := info 1105 1105 0 1;
     nb_since := since_timestamp 1105 |}.

(** Thirty-three aggregators with the one-byte identities 0x00 .. 0x20. *)
Definition thirty_three_identities : list byte :=
  map (fun k => byte_of_Z (Z.of_nat k)) (seq 0 33).

Definition thirty_three_aggregators (threshold : Z) : list byte :=
  setup_bytes true 1 33 threshold 100 5 thirty_three_identities.

(** [n] inputs, all locked by the aggregator with identity 0x20, the last
    of the thirty-three. *)
Definition signed_by_last (n : nat) : list Cell :=
  repeat (plain_cell (lock_hash_of x20)) n.

(** A transaction replacing the setup cell, whose other inputs are
    [signers]. *)
Definition consensus_tx (setup : list byte) (signers : list Cell)
  : Transaction :=
  {| tx_script := script_view;
     tx_cell_deps := [];
     tx_inputs := poa_cell setup_id (lock_hash_of xff) setup :: signers;
     tx_outputs := [ poa_cell setup_id (lock_hash_of xff) setup ];
     tx_group_inputs := [ group_input 0 ];
     tx_group_outputs := [] |}.

End Build.

(** ** Vocabulary of the further statements *)

(** The type-field read of the cell is settled: a script was delivered, or
    the cell has none. *)
Definition type_read_settled (c : Cell) : Prop :=
  read_ret (cell_type c) = CKB_SUCCESS
  \/ read_ret (cell_type c) = CKB_ITEM_MISSING.

(** The cell carries the type-id script of [type_id]. *)
Definition carries_type_id (type_id : list byte) (c : Cell) : bool :=
  (read_ret (cell_type c) =? CKB_SUCCESS) && is_poa_cell type_id (cell_type c).

(** The indices, counted from [start], of the cells that carry the type-id
    script of [type_id]. *)
Fixpoint poa_positions (type_id : list byte) (cells : list Cell) (start : Z)
  : list Z :=
  match cells with
  | [] => []
  | c :: rest =>
      if carries_type_id type_id c
      then start :: poa_positions type_id rest (start + 1)
      else poa_positions type_id rest (start + 1)
  end.

(** [main] runs its consensus path on [tx] and finds [old_setup] there: no
    dependency carries the setup type id of the script's args, one input
    does, and its data decodes to [old_setup]. *)
Definition authority_change (tx : Transaction) (old_setup : PoASetup) : Prop :=
  exists args input_index,
    script_load_ret (tx_script tx) = CKB_SUCCESS
    /\ script_args (tx_script tx) = Some args
    /\ look_for_poa_cell args (tx_cell_deps tx) = Err CKB_INDEX_OUT_OF_BOUND
    /\ look_for_poa_cell args (tx_inputs tx) = Ok input_index
    /\ load_poa_setup (tx_inputs tx) input_index = Ok old_setup.

(** No two identities of the buffer agree on their [identity_size] bytes. *)
Definition identities_distinct (identity_buffer : list byte)
           (identity_size identity_count : Z) : Prop :=
  forall j k,
    0 <= j < identity_count -> 0 <= k < identity_count ->
    firstn (Z.to_nat identity_size) (identity_at identity_buffer identity_size j)
    = firstn (Z.to_nat identity_size) (identity_at identity_buffer identity_size k) ->
    j = k.

(** ** The off-chain generator (src/generator.ts)

    [shouldIssueNewBlock] and [fixTransactionSkeleton] first await
    [_queryPoAInfos], which asks the indexer for the two PoA cells and parses
    them with the functions of [./config]; what it returns is taken here as
    the record [PoAInfos].  [medianTime] and the two subtimes are [BigInt]s,
    the other numbers are JavaScript numbers holding 16- and 32-bit
    integers, on which [+] is exact and [%] is the remainder with the sign
    of the dividend ([Z.rem]). *)

Module Generator.

Inductive State : Type := Yes | YesIfFull | No.

Record PoAInfos : Type := {
  poaData : SubblockInfo;
  poaSetup : PoASetup;
  identities_length : Z;       (* poaSetup.identities.length *)
  aggregatorIndex : Z
}.

(** The condition of generator.ts 55-59 and 99-103. *)
Definition in_current_round (medianTime : Z) (q : PoAInfos) : bool :=
  (medianTime <? round_initial_subtime (poaData q)
                 + subblock_intervals (poaSetup q))
  && (subblock_index (poaData q) + 1 <? subblocks_per_interval (poaSetup q)).

(** generator.ts 62-66. *)
Definition steps (q : PoAInfos) : Z :=
  Z.rem (aggregatorIndex q + identities_length q - aggregator_index (poaData q))
        (identities_length q).

(** generator.ts 47-75, after the query. *)
Definition shouldIssueNewBlock (medianTime : Z) (q : PoAInfos) : State :=
  if in_current_round medianTime q then YesIfFull
  else if medianTime >=? round_initial_subtime (poaData q)
                         + subblock_intervals (poaSetup q) * steps q
  then Yes
  else No.

(** generator.ts 98-119: the round state [fixTransactionSkeleton] writes
    into the new PoA data cell. *)
Definition newPoAData (medianTime : Z) (q : PoAInfos) : SubblockInfo :=
  if in_current_round medianTime q then
    {| round_initial_subtime := round_initial_subtime (poaData q);
       subblock_subtime := subblock_subtime (poaData q) + 1;
       subblock_index := subblock_index (poaData q) + 1;
       aggregator_index := aggregator_index (poaData q) |}
  else
    {| round_initial_subtime := medianTime;
       subblock_subtime := medianTime;
       subblock_index := 0;
       aggregator_index := aggregatorIndex q |}.

(** What the script's block-production path loads from the transaction
    that [fixTransactionSkeleton] completes, given the [since] of the input
    (generator.ts 122-131 has it made by [since.generateSince] of the lumos
    library). *)
Definition built_block (medianTime : Z) (q : PoAInfos) (since : Z) : NewBlock :=
  {| nb_setup := poaSetup q;
     nb_last := poaData q;
     nb_current := newPoAData medianTime q;
     nb_since := since |}.

End Generator.

(** A round state as the script leaves it: the aggregator index is in
    range, the subblock time is a 56-bit value inside the interval that
    starts at the round's initial time, and the subblock index is below the
    subblocks allowed per interval. *)
Definition round_state_ok (setup : PoASetup) (s : SubblockInfo) : Prop :=
  0 <= aggregator_index s < aggregator_number setup
  /\ round_initial_subtime s <= subblock_subtime s
  /\ subblock_subtime s < round_initial_subtime s + subblock_intervals setup
  /\ subblock_subtime s < 2 ^ 56
  /\ subblock_index s < subblocks_per_interval setup.

(** ** [pushAndFix] (src/generator.ts 23-36)

    The transaction skeleton is a record of the lumos library; the function
    touches its lists of inputs and of outputs and its list of fixed
    entries, and the record update leaves every other field as it is:
    those are kept together in [others]. *)

Module Skeleton.

Inductive Field : Type := inputs_field | outputs_field.

Record FixedEntry : Type := {
  field : Field;
  index : nat
}.

Record TransactionSkeleton (C Others : Type) : Type := {
  inputs : list C;
  outputs : list C;
  fixedEntries : list FixedEntry;
  others : Others
}.
Arguments inputs {C Others} _.
Arguments outputs {C Others} _.
Arguments fixedEntries {C Others} _.
Arguments others {C Others} _.

(** [txSkeleton.get(field)]. *)
Definition get {C Others : Type} (tx : TransactionSkeleton C Others)
           (f : Field) : list C :=
  match f with
  | inputs_field => inputs tx
  | outputs_field => outputs tx
  end.

Definition pushAndFix {C Others : Type} (txSkeleton : TransactionSkeleton C Others)
           (cell : C) (f : Field) : TransactionSkeleton C Others :=
  let index := length (get txSkeleton f) in
  let txSkeleton' :=
    match f with
    | inputs_field =>
        {| inputs := inputs txSkeleton ++ [cell];
           outputs := outputs txSkeleton;
           fixedEntries := fixedEntries txSkeleton;
           others := others txSkeleton |}
    | outputs_field =>
        {| inputs := inputs txSkeleton;
           outputs := outputs txSkeleton ++ [cell];
           fixedEntries := fixedEntries txSkeleton;
           others := others txSkeleton |}
    end in
  {| inputs := inputs txSkeleton';
     outputs := outputs txSkeleton';
     fixedEntries := fixedEntries txSkeleton'
                     ++ [ {| field := f; index := index |} ];
     others := others txSkeleton' |}.

(** Every fixed entry points at a cell of the list it names. *)
Definition entries_in_range {C Others : Type}
           (tx : TransactionSkeleton C Others) : Prop :=
  Forall (fun e => (index e < length (get tx (field e)))%nat) (fixedEntries tx).

End Skeleton.

(** ** More concrete transactions *)

Module Samples.

(** Three aggregators whose setup gives the identities no bytes at all. *)
Definition nameless_aggregators : list byte :=
  Build.setup_bytes true 0 3 2 100 5 [].

Definition nameless_block : NewBlock :=
  {| nb_setup := poa_setup_of nameless_aggregators;
     nb_last := Build.info 1000 1000 0 0;
     nb_current := Build.info 1000 1050 1 0;
     nb_since := Build.since_timestamp 1050 |}.

(** Aggregator 0 continues its round; the other input is locked by a
    stranger. *)
Definition nameless_tx : Transaction :=
  {| tx_script := Build.script_view;
     tx_cell_deps := [ Build.poa_cell Build.setup_id (Build.lock_hash_of x00)
                                      nameless_aggregators ];
     tx_inputs := [ Build.poa_cell Build.data_id (Build.lock_hash_of x01)
                                   (Build.subblock_bytes (Build.info 1000 1000 0 0));
                    Build.plain_cell (Build.lock_hash_of x77) ];
     tx_outputs := [ Build.poa_cell Build.data_id (Build.lock_hash_of x01)
                                    (Build.subblock_bytes (Build.info 1000 1050 1 0)) ];
     tx_group_inputs := [ Build.group_input (Build.since_timestamp 1050) ];
     tx_group_outputs := [] |}.

Definition signers_0_2 : list Cell :=
  [ Build.plain_cell (Build.lock_hash_of xa0);
    Build.plain_cell (Build.lock_hash_of xa2) ].

Definition signers_2_0 : list Cell :=
  [ Build.plain_cell (Build.lock_hash_of xa2);
    Build.plain_cell (Build.lock_hash_of xa0) ].

(** The setup of [Build.three_aggregators] is replaced, signed by
    aggregators 0 and 2. *)
Definition change_tx : Transaction :=
  Build.consensus_tx Build.three_aggregators signers_0_2.

Definition three_identities : list byte := [xa0; xa0; xa1; xa1; xa2; xa2].

(** What the generator has queried when aggregator 1 asks at a time when
    the last state is round 1000, subblock 0, aggregator 0. *)
Definition infos_of (last : SubblockInfo) (aggregator : Z) : Generator.PoAInfos :=
  {| Generator.poaData := last;
     Generator.poaSetup := poa_setup_of Build.three_aggregators;
     Generator.identities_length := 3;
     Generator.aggregatorIndex := aggregator |}.

(** The data cell consumed has subblock index 2^32 - 1; aggregator 0
    continues its round with subblock index 0. *)
Definition index_wrap_tx : Transaction :=
  Build.new_block_tx (Build.info 1000 1000 4294967295 0)
                     (Build.info 1000 1050 0 0)
                     (Build.since_timestamp 1050) xa0.

Definition index_wrap_block : NewBlock :=
  {| nb_setup := poa_setup_of Build.three_aggregators;
     nb_last := Build.info 1000 1000 4294967295 0;
     nb_current := Build.info 1000 1050 0 0;
     nb_since := Build.since_timestamp 1050 |}.

(** The data cell consumed has a round that started at 2^64 - 50;
    aggregator 1 opens a round at time 60. *)
Definition time_wrap_tx : Transaction :=
  Build.new_block_tx
    (Build.info 18446744073709551566 18446744073709551566 0 0)
    (Build.info 60 60 0 1) (Build.since_timestamp 60) xa1.

Definition time_wrap_block : NewBlock :=
  {| nb_setup := poa_setup_of Build.three_aggregators;
     nb_last := Build.info 18446744073709551566 18446744073709551566 0 0;
     nb_current := Build.info 60 60 0 1;
     nb_since := Build.since_timestamp 60 |}.

End Samples.

(** * Properties *)

(** ** Arithmetic and buffer facts *)

Lemma byte_val_range (b : byte) : 0 <= byte_val b < 256.
Proof.
  unfold byte_val. pose proof (Byte.to_N_bounded b) as H.
  lia.
Qed.

Lemma byte_at_range (buf : list byte) (i : nat) : 0 <= byte_at buf i < 256.
Proof. apply byte_val_range. Qed.

Lemma le_decode_range (bs : list byte) :
  0 <= le_decode bs < 256 ^ Z.of_nat (length bs).
Proof.
  induction bs as [|b bs IH].
  - simpl. lia.
  - cbn [le_decode length]. rewrite Nat2Z.inj_succ, Z.pow_succ_r by lia.
    pose proof (byte_val_range b). lia.
Qed.

Lemma bytes_eqb_eq (a b : list byte) : bytes_eqb a b = true <-> a = b.
Proof.
  revert b. induction a as [|x a IH]; intros [|y b]; simpl;
    try (split; [discriminate | discriminate]); try tauto.
  rewrite andb_true_iff, IH. split.
  - intros [Hxy ->]. apply Byte.byte_dec_bl in Hxy. now subst.
  - intros H. inversion H; subst. split; [now apply Byte.byte_dec_lb | reflexivity].
Qed.

Lemma read_le_4 (buf : list byte) (off : nat) :
  (off + 4 <= length buf)%nat ->
  read_le buf off 4 =
  byte_at buf off + 2 ^ 8 * byte_at buf (off + 1)
  + 2 ^ 16 * byte_at buf (off + 2) + 2 ^ 24 * byte_at buf (off + 3).
Proof.
  revert buf. induction off as [|off IH]; intros buf Hlen.
  - destruct buf as [|b0 [|b1 [|b2 [|b3 rest]]]]; simpl in Hlen; try lia.
    unfold read_le, slice, byte_at. cbn [skipn firstn le_decode nth Nat.add].
    lia.
  - destruct buf as [|b buf]; simpl in Hlen; [lia|].
    unfold read_le, slice, byte_at in *. cbn [skipn nth Nat.add].
    apply IH. lia.
Qed.

(** ** Decoding the aggregator set *)

(** C6.  [parse_poa_setup] fails, with the encoding error, exactly when the
    buffer is shorter than 12 bytes, or the identity size (byte 1) exceeds
    32, or the change threshold (byte 3) exceeds the aggregator count
    (byte 2), or the length is not 12 + identity size * aggregator count.
    Every other buffer decodes, field by field: the flag is the low bit of
    byte 0, the three counts are bytes 1 to 3, the two 32-bit values are the
    little-endian words at offsets 4 and 8, and the identities are the rest
    of the buffer, [identity size * aggregator count] bytes. *)
Theorem parse_poa_setup_fails_iff (data : list byte) :
  let len := Z.of_nat (length data) in
  let rejected :=
    len < 12 \/ byte_at data 1 > 32 \/ byte_at data 3 > byte_at data 2
    \/ len <> 12 + byte_at data 1 * byte_at data 2 in
  (parse_poa_setup data = Err ERROR_ENCODING <-> rejected)
  /\ (~ rejected ->
      exists setup,
        parse_poa_setup data = Ok setup
        /\ interval_uses_seconds setup = Z.odd (byte_at data 0)
        /\ identity_size setup = byte_at data 1
        /\ aggregator_number setup = byte_at data 2
        /\ aggregator_change_threshold setup = byte_at data 3
        /\ subblock_intervals setup =
           byte_at data 4 + 2 ^ 8 * byte_at data 5
           + 2 ^ 16 * byte_at data 6 + 2 ^ 24 * byte_at data 7
        /\ subblocks_per_interval setup =
           byte_at data 8 + 2 ^ 8 * byte_at data 9
           + 2 ^ 16 * byte_at data 10 + 2 ^ 24 * byte_at data 11
        /\ identities setup = skipn 12 data
        /\ Z.of_nat (length (identities setup)) =
           identity_size setup * aggregator_number setup).
Proof.
  cbv zeta. unfold parse_poa_setup. cbv zeta.
  cbn [identity_size aggregator_number aggregator_change_threshold poa_setup_of].
  unfold IDENTITY_SIZE.
  destruct (Z.ltb_spec (Z.of_nat (length data)) 12) as [Hlt | Hge].
  { split; [split; [intros _; left; exact Hlt | reflexivity] | intros H; exfalso; apply H; left; exact Hlt]. }
  rewrite !Z.gtb_ltb.
  destruct (Z.ltb_spec 32 (byte_at data 1)) as [Hsz | Hsz].
  { split; [split; [intros _; right; left; lia | reflexivity] | intros H; exfalso; apply H; right; left; lia]. }
  destruct (Z.ltb_spec (byte_at data 2) (byte_at data 3)) as [Hthr | Hthr].
  { split; [split; [intros _; right; right; left; lia | reflexivity]
           | intros H; exfalso; apply H; right; right; left; lia]. }
  destruct (Z.eqb_spec (Z.of_nat (length data))
                       (12 + byte_at data 1 * byte_at data 2)) as [Heq | Hne]; cbn [negb].
  2:{ split; [split; [intros _; right; right; right; exact Hne | reflexivity]
             | intros H; exfalso; apply H; right; right; right; exact Hne]. }
  split.
  - split; [discriminate | intros [H | [H | [H | H]]]; exfalso; lia].
  - intros _. exists (poa_setup_of data).
    cbn [interval_uses_seconds identity_size aggregator_number
         aggregator_change_threshold subblock_intervals subblocks_per_interval
         identities poa_setup_of].
    repeat split.
    + unfold byte_at, byte_val. destruct (nth 0 data x00); reflexivity.
    + rewrite read_le_4 by lia. reflexivity.
    + rewrite read_le_4 by lia. reflexivity.
    + rewrite length_skipn. lia.
Qed.

(** ** The single-identity check *)

Lemma memcmp_eq_true (a b : list byte) (n : Z) :
  memcmp_eq a b n = true <-> firstn (Z.to_nat n) a = firstn (Z.to_nat n) b.
Proof. unfold memcmp_eq. apply bytes_eqb_eq. Qed.

Lemma memcmp_hash_buffer (r : FieldRead) (identity : list byte) (n : Z) :
  n <= 32 ->
  memcmp_eq (read_buf r 32) identity n = true
  <-> firstn (Z.to_nat n) (snd r) = firstn (Z.to_nat n) identity.
Proof.
  intros Hn. rewrite memcmp_eq_true. unfold read_buf.
  rewrite firstn_firstn, Nat.min_l by lia. tauto.
Qed.

Lemma single_loop_accepts_iff (identity : list byte) (identity_size : Z)
      (inputs : list Cell) :
  identity_size <= 32 ->
  Forall lock_hash_readable inputs ->
  forall current,
    0 <= current ->
    current + Z.of_nat (length inputs) <= SIZE_MAX ->
    (single_loop identity identity_size inputs current = CKB_SUCCESS
     <-> Exists (signed_by identity identity_size) inputs)
    /\ (single_loop identity identity_size inputs current = CKB_SUCCESS
        \/ single_loop identity identity_size inputs current = ERROR_ENCODING).
Proof.
  intros Hsize Hread. induction Hread as [|c rest Hc Hrest IH]; intros current H0 Hlen.
  - cbn [single_loop]. destruct (current <? SIZE_MAX).
    + split; [split; [discriminate | intros H; inversion H] | right; reflexivity].
    + split; [split; [discriminate | intros H; inversion H] | right; reflexivity].
  - cbn [single_loop]. cbn [length] in Hlen.
    destruct (Z.ltb_spec current SIZE_MAX) as [_ | Hbad]; [|lia].
    unfold lock_hash_readable in Hc. rewrite Hc.
    change (CKB_SUCCESS =? CKB_INDEX_OUT_OF_BOUND) with false.
    change (negb (CKB_SUCCESS =? CKB_SUCCESS)) with false. cbv iota.
    destruct (memcmp_eq (read_buf (cell_lock_hash c) 32) identity identity_size)
      eqn:Hcmp.
    + split; [|left; reflexivity].
      split; [intros _ | reflexivity].
      apply Exists_cons_hd. apply memcmp_hash_buffer; assumption.
    + destruct (IH (current + 1)) as [IHiff IHor]; [lia | lia |].
      split; [|exact IHor].
      rewrite IHiff. split.
      * intros H. apply Exists_cons_tl. exact H.
      * intros H. inversion H as [? ? Hhd | ? ? Htl]; subst; [|exact Htl].
        apply (memcmp_hash_buffer _ _ _ Hsize) in Hhd. congruence.
Qed.

(** C8.  On a transaction whose inputs all have a readable lock hash,
    [validate_single_signing] accepts if and only if the lock hash of some
    input equals the target identity on its first [identity_size] bytes;
    when no input does, the scan runs to its end and the check rejects with
    the encoding error. *)
Theorem validate_single_signing_accepts_iff
        (identity : list byte) (identity_size : Z) (inputs : list Cell) :
  identity_size <= 32 ->
  Z.of_nat (length inputs) <= SIZE_MAX ->
  Forall lock_hash_readable inputs ->
  (validate_single_signing identity identity_size inputs = CKB_SUCCESS
   <-> Exists (signed_by identity identity_size) inputs)
  /\ (~ Exists (signed_by identity identity_size) inputs ->
      validate_single_signing identity identity_size inputs = ERROR_ENCODING).
Proof.
  intros Hsize Hlen Hread. unfold validate_single_signing.
  destruct (single_loop_accepts_iff identity identity_size inputs Hsize Hread 0)
    as [Hiff Hor]; [lia | lia |].
  split; [exact Hiff|].
  intros Hnone. destruct Hor as [Hacc | Hrej]; [|exact Hrej].
  exfalso. apply Hnone, Hiff, Hacc.
Qed.

Lemma validate_single_signing_accepts_iff_witness :
  validate_single_signing [xa0; xa0] 2
    [Build.plain_cell (Build.lock_hash_of x01);
     Build.plain_cell (Build.lock_hash_of xa0)] = CKB_SUCCESS
  <-> Exists (signed_by [xa0; xa0] 2)
        [Build.plain_cell (Build.lock_hash_of x01);
         Build.plain_cell (Build.lock_hash_of xa0)].
Proof.
  apply (validate_single_signing_accepts_iff [xa0; xa0] 2
           [Build.plain_cell (Build.lock_hash_of x01);
            Build.plain_cell (Build.lock_hash_of xa0)]).
  - lia.
  - vm_compute. discriminate.
  - repeat constructor.
Defined.

(** ** The cell locator *)

(** A cell without a type script is stepped over. *)
Lemma look_loop_skips_missing (type_id : list byte) (c : Cell)
      (rest : list Cell) (current found_index : Z) :
  current < SIZE_MAX ->
  read_ret (cell_type c) = CKB_ITEM_MISSING ->
  look_loop type_id (c :: rest) current found_index
  = look_loop type_id rest (current + 1) found_index.
Proof.
  intros Hcur Hret. cbn [look_loop].
  destruct (Z.ltb_spec current SIZE_MAX); [|lia].
  rewrite Hret. reflexivity.
Qed.

(** A read that answers anything but success or item-missing ends the scan
    exactly as the end of the side does: the cells before it decide the
    result, and the code of the failed read is dropped. *)
Lemma look_loop_stops_at_failure (type_id : list byte) (c : Cell)
      (before after : list Cell) :
  read_ret (cell_type c) <> CKB_ITEM_MISSING ->
  read_ret (cell_type c) <> CKB_SUCCESS ->
  forall current found_index,
    look_loop type_id (before ++ c :: after) current found_index
    = look_loop type_id before current found_index.
Proof.
  intros Hmiss Hok. induction before as [|b before IH]; intros current found_index.
  - cbn [app look_loop]. destruct (current <? SIZE_MAX); [|reflexivity].
    destruct (Z.eqb_spec (read_ret (cell_type c)) CKB_ITEM_MISSING); [contradiction|].
    destruct (Z.eqb_spec (read_ret (cell_type c)) CKB_SUCCESS); [contradiction|].
    reflexivity.
  - cbn [app look_loop]. destruct (current <? SIZE_MAX); [|reflexivity].
    destruct (read_ret (cell_type b) =? CKB_ITEM_MISSING); [apply IH|].
    destruct (read_ret (cell_type b) =? CKB_SUCCESS); [|reflexivity].
    destruct (is_poa_cell type_id (cell_type b)); [|apply IH].
    destruct (negb (found_index =? SIZE_MAX)); [reflexivity | apply IH].
Qed.

(** X4.  For the locator as a whole: a type-field read that answers anything
    but success or item-missing ends the scan exactly as the end of the side
    does.  The result is the one for the cells before it, the cells behind
    it are never read, and the code of the failed read is dropped. *)
Lemma look_for_poa_cell_failure_is_end (type_id : list byte) (c : Cell)
      (before after : list Cell) :
  read_ret (cell_type c) <> CKB_ITEM_MISSING ->
  read_ret (cell_type c) <> CKB_SUCCESS ->
  look_for_poa_cell type_id (before ++ c :: after)
  = look_for_poa_cell type_id before.
Proof.
  intros Hmiss Hok. unfold look_for_poa_cell.
  rewrite (look_loop_stops_at_failure type_id c before after Hmiss Hok).
  reflexivity.
Qed.

(** C2 (the code departs from the claim).  A type-field read that fails
    with [CKB_INVALID_DATA] is not reported to the caller: on a side whose
    only cell is unreadable the locator answers "not found"
    ([CKB_INDEX_OUT_OF_BOUND]); after a matching cell it answers success
    with that cell's index, even when a second matching cell follows the
    unreadable one. *)
Theorem look_for_poa_cell_drops_read_failure :
  look_for_poa_cell Build.data_id [Build.unreadable_cell CKB_INVALID_DATA]
  = Err CKB_INDEX_OUT_OF_BOUND
  /\ look_for_poa_cell Build.data_id
       [Build.poa_cell Build.data_id (Build.lock_hash_of x01) [];
        Build.unreadable_cell CKB_INVALID_DATA;
        Build.poa_cell Build.data_id (Build.lock_hash_of x01) []]
     = Ok 0.
Proof. split; vm_compute; reflexivity. Qed.

(** ** The group check of [main] *)

(** C7.  A transaction with two or more inputs in the script's own group,
    or two or more outputs in it, is rejected with [ERROR_TRANSACTION],
    whatever else it contains. *)
Theorem main_rejects_second_group_cell (tx : Transaction) :
  (2 <= length (tx_group_inputs tx))%nat
  \/ (2 <= length (tx_group_outputs tx))%nat ->
  main tx = ERROR_TRANSACTION.
Proof.
  intros H. unfold main, ckb_load_cell_probe.
  destruct (tx_group_inputs tx) as [|g0 [|g1 gs]] eqn:Hin;
    cbn [nth_error]; try reflexivity;
    (destruct (tx_group_outputs tx) as [|o0 [|o1 os]] eqn:Hout;
     cbn [nth_error]; try reflexivity);
    simpl in H; lia.
Qed.

Lemma main_rejects_second_group_cell_witness :
  main Build.two_group_inputs_tx = ERROR_TRANSACTION.
Proof.
  apply (main_rejects_second_group_cell Build.two_group_inputs_tx).
  left. simpl. lia.
Defined.

(** ** Block production *)

(** When [main] accepts on its block-production path, the checks on the
    loaded values passed and the aggregator in turn signed. *)
Lemma main_accepts_new_block (tx : Transaction) (nb : NewBlock) :
  block_production tx nb ->
  main tx = CKB_SUCCESS ->
  check_new_block nb = CKB_SUCCESS
  /\ validate_single_signing
       (identity_at (identities (nb_setup nb)) (identity_size (nb_setup nb))
                    (aggregator_index (nb_current nb)))
       (identity_size (nb_setup nb)) (tx_inputs tx) = CKB_SUCCESS.
Proof.
  intros (args & dep_index & Hret & Hargs & Hdep & Hload) Hmain.
  unfold main in Hmain.
  destruct (negb (ckb_load_cell_probe (tx_group_inputs tx) 1
                  =? CKB_INDEX_OUT_OF_BOUND)); [discriminate|].
  destruct (negb (ckb_load_cell_probe (tx_group_outputs tx) 1
                  =? CKB_INDEX_OUT_OF_BOUND)); [discriminate|].
  rewrite Hret, Hargs in Hmain. cbn [negb Z.eqb CKB_SUCCESS] in Hmain.
  destruct (negb (Z.of_nat (length args) =? 64)); [discriminate|].
  rewrite Hdep in Hmain. unfold main_new_block in Hmain.
  rewrite Hload in Hmain.
  destruct (Z.eqb_spec (check_new_block nb) CKB_SUCCESS) as [Hcheck | Hcheck];
    cbn [negb] in Hmain.
  - split; assumption.
  - contradiction.
Qed.

(** On the block-production path [main] accepts exactly when the script's
    group has at most one input and one output, the args are 64 bytes long,
    the checks on the loaded values pass and the aggregator in turn
    signed. *)
Lemma main_on_block_production (tx : Transaction) (nb : NewBlock) :
  block_production tx nb ->
  main tx = CKB_SUCCESS
  <-> (length (tx_group_inputs tx) <= 1)%nat
      /\ (length (tx_group_outputs tx) <= 1)%nat
      /\ (forall args, script_args (tx_script tx) = Some args ->
                       length args = 64%nat)
      /\ check_new_block nb = CKB_SUCCESS
      /\ validate_single_signing
           (identity_at (identities (nb_setup nb)) (identity_size (nb_setup nb))
                        (aggregator_index (nb_current nb)))
           (identity_size (nb_setup nb)) (tx_inputs tx) = CKB_SUCCESS.
Proof.
  intros Hbp. split.
  - intros Hmain.
    destruct (main_accepts_new_block tx nb Hbp Hmain) as [Hcheck Hsign].
    destruct Hbp as (args & dep_index & Hret & Hargs & Hdep & Hload).
    unfold main, ckb_load_cell_probe in Hmain.
    destruct (tx_group_inputs tx) as [|g0 [|g1 gs]]; cbn [nth_error] in Hmain;
      try discriminate;
      (destruct (tx_group_outputs tx) as [|o0 [|o1 os]]; cbn [nth_error] in Hmain;
       try discriminate);
      (rewrite Hret, Hargs in Hmain; cbn [negb Z.eqb CKB_SUCCESS] in Hmain;
       destruct (Z.eqb_spec (Z.of_nat (length args)) 64) as [Hlen|];
       cbn [negb] in Hmain; [|discriminate];
       cbn [length]; repeat split; try lia; try assumption;
       intros args' Hargs'; rewrite Hargs in Hargs'; injection Hargs' as <-; lia).
  - intros (Hin & Hout & Hlen & Hcheck & Hsign).
    destruct Hbp as (args & dep_index & Hret & Hargs & Hdep & Hload).
    specialize (Hlen args Hargs).
    unfold main, ckb_load_cell_probe.
    destruct (tx_group_inputs tx) as [|g0 [|g1 gs]]; cbn [length] in Hin; try lia;
      (destruct (tx_group_outputs tx) as [|o0 [|o1 os]]; cbn [length] in Hout;
       try lia);
      cbn [nth_error];
      rewrite Hret, Hargs, Hlen, Hdep; cbn [negb Z.eqb CKB_SUCCESS Z.of_nat
                                            Pos.of_succ_nat];
      unfold main_new_block; rewrite Hload, Hcheck; exact Hsign.
Qed.

(** What [load_new_block] has established when it succeeds: the aggregator
    index of the new state is in range, and the [since] field of the first
    group input was read in full. *)
Lemma load_new_block_inv (tx : Transaction) (args : list byte) (dep : Z)
      (nb : NewBlock) :
  load_new_block tx args dep = Ok nb ->
  aggregator_index (nb_current nb) < aggregator_number (nb_setup nb)
  /\ exists g rest bytes,
      tx_group_inputs tx = g :: rest
      /\ since_field g = (CKB_SUCCESS, bytes)
      /\ length bytes = 8%nat
      /\ nb_since nb = le_decode bytes.
Proof.
  unfold load_new_block.
  destruct (load_poa_setup (tx_cell_deps tx) dep) as [setup|]; [|discriminate].
  destruct (look_for_poa_cell (skipn 32 args) (tx_inputs tx)) as [i|]; [|discriminate].
  destruct (load_poa_data (tx_inputs tx) i) as [last|]; [|discriminate].
  destruct (look_for_poa_cell (skipn 32 args) (tx_outputs tx)) as [o|]; [|discriminate].
  destruct (load_poa_data (tx_outputs tx) o) as [cur|]; [|discriminate].
  cbv zeta.
  destruct (Z.geb_spec (aggregator_index (subblock_info_of cur))
                       (aggregator_number setup)) as [|Hlt]; [discriminate|].
  unfold ckb_load_group_since.
  destruct (tx_group_inputs tx) as [|g rest]; [discriminate|].
  destruct (since_field g) as [ret bytes] eqn:Hsince.
  unfold read_ret, read_len, read_buf. cbn [fst snd].
  destruct (Z.eqb_spec ret CKB_SUCCESS) as [-> |]; [|discriminate].
  destruct (Z.eqb_spec (Z.of_nat (length bytes)) 8) as [Hlen |]; [|discriminate].
  rewrite (firstn_all2 (n := 8) bytes) by lia.
  cbn [negb]. intros H. injection H as <-. cbn [nb_current nb_setup nb_since].
  split; [exact Hlt|].
  exists g, rest, bytes.
  split; [reflexivity|]. split; [exact Hsince|]. split; [lia | reflexivity].
Qed.

(** The outcome of the checks of poa.c 340-404, as conditions. *)
Lemma check_new_block_accepts (nb : NewBlock) :
  check_new_block nb = CKB_SUCCESS ->
  let setup := nb_setup nb in
  let last := nb_last nb in
  let current := nb_current nb in
  let since := since_value (nb_since nb) in
  Z.shiftr (nb_since nb) 56 = (if interval_uses_seconds setup then 64 else 0)
  /\ subblock_subtime current = since
  /\ (since < wrap64 (round_initial_subtime last + subblock_intervals setup) ->
      round_initial_subtime current = round_initial_subtime last
      /\ subblock_subtime last <= subblock_subtime current
      /\ aggregator_index current = aggregator_index last
      /\ subblock_index current = wrap32 (subblock_index last + 1)
      /\ subblock_index current < subblocks_per_interval setup)
  /\ (wrap64 (round_initial_subtime last + subblock_intervals setup) <= since ->
      round_initial_subtime current = subblock_subtime current
      /\ subblock_index current = 0
      /\ wrap64 (wrap64 (rollover_steps (aggregator_index current)
                                        (aggregator_number setup)
                                        (aggregator_index last)
                         * subblock_intervals setup)
                 + round_initial_subtime last) <= since).
Proof.
  unfold check_new_block, since_value. cbv zeta.
  change (2 ^ 56 - 1) with 72057594037927935.
  set (since := Z.land (nb_since nb) 72057594037927935).
  destruct (Z.eqb_spec (Z.shiftr (nb_since nb) 56)
              (if interval_uses_seconds (nb_setup nb) then 64 else 0))
    as [Hmode|]; [|discriminate].
  destruct (Z.eqb_spec (subblock_subtime (nb_current nb)) since)
    as [Htime|]; [|discriminate].
  cbn [negb].
  destruct (Z.ltb_spec since
              (wrap64 (round_initial_subtime (nb_last nb)
                       + subblock_intervals (nb_setup nb)))) as [Hsame | Hnext].
  - destruct (Z.eqb_spec (round_initial_subtime (nb_current nb))
                         (round_initial_subtime (nb_last nb))); [|discriminate].
    destruct (Z.ltb_spec (subblock_subtime (nb_current nb))
                         (subblock_subtime (nb_last nb))); [discriminate|].
    destruct (Z.eqb_spec (aggregator_index (nb_current nb))
                         (aggregator_index (nb_last nb))); [|discriminate].
    destruct (Z.eqb_spec (subblock_index (nb_current nb))
                         (wrap32 (subblock_index (nb_last nb) + 1))); [|discriminate].
    destruct (Z.geb_spec (subblock_index (nb_current nb))
                         (subblocks_per_interval (nb_setup nb))); [discriminate|].
    intros _. repeat split; try assumption; try lia.
  - destruct (Z.eqb_spec (round_initial_subtime (nb_current nb))
                         (subblock_subtime (nb_current nb))); [|discriminate].
    destruct (Z.eqb_spec (subblock_index (nb_current nb)) 0); [|discriminate].
    cbn [negb].
    destruct (Z.ltb_spec since
                (wrap64 (wrap64 (rollover_steps
                                   (aggregator_index (nb_current nb))
                                   (aggregator_number (nb_setup nb))
                                   (aggregator_index (nb_last nb))
                                 * subblock_intervals (nb_setup nb))
                         + round_initial_subtime (nb_last nb))));
      [discriminate|].
    intros _. repeat split; try assumption; try lia.
Qed.

(** The conditions are enough for the checks to pass. *)
Lemma check_new_block_complete (nb : NewBlock) :
  Z.shiftr (nb_since nb) 56
  = (if interval_uses_seconds (nb_setup nb) then 64 else 0)
  /\ subblock_subtime (nb_current nb) = since_value (nb_since nb)
  /\ ((since_value (nb_since nb)
       < wrap64 (round_initial_subtime (nb_last nb)
                 + subblock_intervals (nb_setup nb))
       /\ round_initial_subtime (nb_current nb) = round_initial_subtime (nb_last nb)
       /\ subblock_subtime (nb_last nb) <= subblock_subtime (nb_current nb)
       /\ aggregator_index (nb_current nb) = aggregator_index (nb_last nb)
       /\ subblock_index (nb_current nb) = wrap32 (subblock_index (nb_last nb) + 1)
       /\ subblock_index (nb_current nb) < subblocks_per_interval (nb_setup nb))
      \/ (wrap64 (round_initial_subtime (nb_last nb)
                  + subblock_intervals (nb_setup nb))
          <= since_value (nb_since nb)
          /\ round_initial_subtime (nb_current nb) = subblock_subtime (nb_current nb)
          /\ subblock_index (nb_current nb) = 0
          /\ wrap64 (wrap64 (rollover_steps (aggregator_index (nb_current nb))
                                            (aggregator_number (nb_setup nb))
                                            (aggregator_index (nb_last nb))
                             * subblock_intervals (nb_setup nb))
                     + round_initial_subtime (nb_last nb))
             <= since_value (nb_since nb))) ->
  check_new_block nb = CKB_SUCCESS.
Proof.
  intros (Hmode & Htime & Hround).
  unfold check_new_block. cbv zeta.
  unfold since_value in *. change (2 ^ 56 - 1) with 72057594037927935 in *.
  rewrite Hmode, Z.eqb_refl, Htime, Z.eqb_refl. cbn [negb].
  destruct Hround as [(Hlt & H1 & H2 & H3 & H4 & H5) | (Hge & H1 & H2 & H3)].
  - destruct (Z.ltb_spec (Z.land (nb_since nb) 72057594037927935)
                (wrap64 (round_initial_subtime (nb_last nb)
                         + subblock_intervals (nb_setup nb)))); [|lia].
    rewrite H1, Z.eqb_refl. cbn [negb].
    rewrite <- Htime.
    destruct (Z.ltb_spec (subblock_subtime (nb_current nb))
                         (subblock_subtime (nb_last nb))); [lia|].
    rewrite H3, Z.eqb_refl, H4, Z.eqb_refl. cbn [negb orb].
    rewrite <- H4.
    destruct (Z.geb_spec (subblock_index (nb_current nb))
                         (subblocks_per_interval (nb_setup nb))); [lia|].
    reflexivity.
  - destruct (Z.ltb_spec (Z.land (nb_since nb) 72057594037927935)
                (wrap64 (round_initial_subtime (nb_last nb)
                         + subblock_intervals (nb_setup nb)))); [lia|].
    rewrite H1, Htime, Z.eqb_refl, H2. cbn [negb Z.eqb].
    destruct (Z.ltb_spec (Z.land (nb_since nb) 72057594037927935)
                (wrap64 (wrap64 (rollover_steps
                                   (aggregator_index (nb_current nb))
                                   (aggregator_number (nb_setup nb))
                                   (aggregator_index (nb_last nb))
                                 * subblock_intervals (nb_setup nb))
                         + round_initial_subtime (nb_last nb)))); [lia|].
    reflexivity.
Qed.

Lemma wrap64_small (z : Z) : 0 <= z < 2 ^ 64 -> wrap64 z = z.
Proof. intros H. unfold wrap64. apply Z.mod_small. exact H. Qed.

Lemma wrap32_small (z : Z) : 0 <= z < 2 ^ 32 -> wrap32 z = z.
Proof. intros H. unfold wrap32. apply Z.mod_small. exact H. Qed.

Lemma rollover_steps_unfold (current n last : Z) :
  rollover_steps current n last
  = (if wrap64 (current + n - last) mod n =? 0 then n
     else wrap64 (current + n - last) mod n).
Proof.
  unfold rollover_steps, wrap64. cbv zeta.
  rewrite Zminus_mod_idemp_l. reflexivity.
Qed.

(** The same aggregator comes back after a full cycle. *)
Lemma rollover_steps_same (n a : Z) :
  0 < n < 2 ^ 64 -> rollover_steps a n a = n.
Proof.
  intros Hn. rewrite rollover_steps_unfold.
  replace (a + n - a) with n by lia.
  rewrite wrap64_small by lia. rewrite Z.mod_same by lia. reflexivity.
Qed.

(** X19.  From a last index in range, the steps are the distance to the current
    index, counted forward around the cycle. *)
Lemma rollover_steps_in_range (current n last : Z) :
  0 <= current < n -> 0 <= last < n -> n < 2 ^ 63 ->
  1 <= rollover_steps current n last <= n
  /\ (rollover_steps current n last - (current - last)) mod n = 0.
Proof.
  intros Hc Hl Hn. rewrite rollover_steps_unfold.
  rewrite wrap64_small by lia.
  pose proof (Z.mod_pos_bound (current + n - last) n ltac:(lia)) as Hb.
  destruct (Z.eqb_spec ((current + n - last) mod n) 0) as [H0 | H0].
  - split; [lia|].
    replace (n - (current - last)) with (current + n - last + (-2 * (current - last)) ) by lia.
    assert (Hcl : (current - last) mod n = 0).
    { replace (current - last) with (current + n - last + (-1) * n) by lia.
      rewrite Z.mod_add by lia. exact H0. }
    rewrite <- Zplus_mod_idemp_l, H0, Z.add_0_l.
    rewrite Z.mul_comm, <- Zmult_mod_idemp_l, Hcl. reflexivity.
  - split; [lia|].
    rewrite Zminus_mod_idemp_l.
    replace (current + n - last - (current - last)) with n by lia.
    apply Z.mod_same. lia.
Qed.

(** C5.  When [main] accepts on the block-production path, it has read the
    8-byte [since] of the first input of its group; that value carries the
    lock mode of the setup in its top byte (0x40, top two bits 01, absolute
    timestamp, when the interval is in seconds; 0x00, top two bits 00,
    absolute block number, otherwise), and its low 56 bits equal the
    subblock time of the new state. *)
Theorem since_matches_setup_and_subtime (tx : Transaction) (nb : NewBlock) :
  block_production tx nb ->
  main tx = CKB_SUCCESS ->
  (exists g rest bytes,
      tx_group_inputs tx = g :: rest
      /\ since_field g = (CKB_SUCCESS, bytes)
      /\ length bytes = 8%nat
      /\ nb_since nb = le_decode bytes)
  /\ Z.shiftr (nb_since nb) 56
     = (if interval_uses_seconds (nb_setup nb) then 64 else 0)
  /\ since_top_bits (nb_since nb)
     = (if interval_uses_seconds (nb_setup nb) then 1 else 0)
  /\ since_value (nb_since nb) = subblock_subtime (nb_current nb).
Proof.
  intros Hbp Hmain.
  destruct (main_accepts_new_block tx nb Hbp Hmain) as [Hcheck _].
  destruct Hbp as (args & dep & _ & _ & _ & Hload).
  destruct (load_new_block_inv tx args dep nb Hload) as [_ Hsince].
  destruct (check_new_block_accepts nb Hcheck) as (Hmode & Htime & _).
  split; [exact Hsince|]. split; [exact Hmode|]. split; [|symmetry; exact Htime].
  unfold since_top_bits.
  replace 62 with (56 + 6) by reflexivity.
  rewrite <- Z.shiftr_shiftr by lia. rewrite Hmode.
  destruct (interval_uses_seconds (nb_setup nb)); reflexivity.
Qed.

Lemma since_matches_setup_and_subtime_witness :
  since_top_bits (nb_since Build.same_round_block) = 1
  /\ since_value (nb_since Build.same_round_block) = 1050.
Proof.
  assert (Hbp : block_production Build.same_round_tx Build.same_round_block).
  { exists (Build.setup_id ++ Build.data_id), 0.
    repeat split; vm_compute; reflexivity. }
  assert (Hmain : main Build.same_round_tx = CKB_SUCCESS)
    by (vm_compute; reflexivity).
  destruct (since_matches_setup_and_subtime _ _ Hbp Hmain) as (_ & _ & Hbits & Hval).
  split; [exact Hbits | exact Hval].
Defined.

(** C4 (amended).  On the block-production path, when [since] (its low 56
    bits) is below the last round's initial time plus the interval, a sum
    taken modulo 2^64, [main] accepts only if the new state continues the
    round: same initial time, subblock time not before the last one, same
    aggregator, subblock index one more than the last, a sum taken modulo
    2^32, and below the subblocks allowed per interval.  A transaction that
    breaks one of the five is rejected. *)
Theorem same_round_continuation (tx : Transaction) (nb : NewBlock) :
  block_production tx nb ->
  since_value (nb_since nb)
  < wrap64 (round_initial_subtime (nb_last nb)
            + subblock_intervals (nb_setup nb)) ->
  let continues :=
    round_initial_subtime (nb_current nb) = round_initial_subtime (nb_last nb)
    /\ subblock_subtime (nb_last nb) <= subblock_subtime (nb_current nb)
    /\ aggregator_index (nb_current nb) = aggregator_index (nb_last nb)
    /\ subblock_index (nb_current nb) = wrap32 (subblock_index (nb_last nb) + 1)
    /\ subblock_index (nb_current nb) < subblocks_per_interval (nb_setup nb) in
  (main tx = CKB_SUCCESS -> continues)
  /\ (~ continues -> main tx <> CKB_SUCCESS).
Proof.
  intros Hbp Hsame. cbv zeta.
  assert (Honly : main tx = CKB_SUCCESS ->
                  round_initial_subtime (nb_current nb)
                  = round_initial_subtime (nb_last nb)
                  /\ subblock_subtime (nb_last nb) <= subblock_subtime (nb_current nb)
                  /\ aggregator_index (nb_current nb) = aggregator_index (nb_last nb)
                  /\ subblock_index (nb_current nb)
                     = wrap32 (subblock_index (nb_last nb) + 1)
                  /\ subblock_index (nb_current nb)
                     < subblocks_per_interval (nb_setup nb)).
  { intros Hmain.
    destruct (main_accepts_new_block tx nb Hbp Hmain) as [Hcheck _].
    destruct (check_new_block_accepts nb Hcheck) as (_ & _ & Hround & _).
    exact (Hround Hsame). }
  split; [exact Honly|].
  intros Hbroken Hmain. exact (Hbroken (Honly Hmain)).
Qed.

Lemma same_round_continuation_witness :
  subblock_index (nb_current Build.same_round_block)
  = wrap32 (subblock_index (nb_last Build.same_round_block) + 1)
  /\ subblock_index (nb_current Build.same_round_block)
     < subblocks_per_interval (nb_setup Build.same_round_block).
Proof.
  assert (Hbp : block_production Build.same_round_tx Build.same_round_block).
  { exists (Build.setup_id ++ Build.data_id), 0.
    repeat split; vm_compute; reflexivity. }
  assert (Hmain : main Build.same_round_tx = CKB_SUCCESS)
    by (vm_compute; reflexivity).
  assert (Hsame : since_value (nb_since Build.same_round_block)
                  < wrap64 (round_initial_subtime (nb_last Build.same_round_block)
                            + subblock_intervals (nb_setup Build.same_round_block)))
    by (vm_compute; reflexivity).
  destruct (proj1 (same_round_continuation _ _ Hbp Hsame) Hmain)
    as (_ & _ & _ & Hidx & Hmax).
  split; [exact Hidx | exact Hmax].
Defined.

(** C4 as the specification words it, with both sums over the integers,
    fails on two transactions that [main] accepts.  In the first the last
    subblock index is 2^32 - 1 and the new one is 0, not 2^32.  In the
    second the last round started at 2^64 - 50, so [since] = 60 is below
    the last round's initial time plus the interval, and yet the new state
    opens a round instead of continuing the last one. *)
Lemma continuation_fails_over_the_integers :
  (block_production Samples.index_wrap_tx Samples.index_wrap_block
   /\ main Samples.index_wrap_tx = CKB_SUCCESS
   /\ since_value (nb_since Samples.index_wrap_block)
      < round_initial_subtime (nb_last Samples.index_wrap_block)
        + subblock_intervals (nb_setup Samples.index_wrap_block)
   /\ subblock_index (nb_current Samples.index_wrap_block) = 0
   /\ subblock_index (nb_last Samples.index_wrap_block) + 1 = 2 ^ 32)
  /\ (block_production Samples.time_wrap_tx Samples.time_wrap_block
      /\ main Samples.time_wrap_tx = CKB_SUCCESS
      /\ since_value (nb_since Samples.time_wrap_block)
         < round_initial_subtime (nb_last Samples.time_wrap_block)
           + subblock_intervals (nb_setup Samples.time_wrap_block)
      /\ round_initial_subtime (nb_current Samples.time_wrap_block) = 60
      /\ round_initial_subtime (nb_last Samples.time_wrap_block) = 2 ^ 64 - 50
      /\ aggregator_index (nb_current Samples.time_wrap_block) = 1
      /\ aggregator_index (nb_last Samples.time_wrap_block) = 0).
Proof.
  split.
  - split.
    { exists (Build.setup_id ++ Build.data_id), 0.
      repeat split; vm_compute; reflexivity. }
    repeat split; vm_compute; reflexivity.
  - split.
    { exists (Build.setup_id ++ Build.data_id), 0.
      repeat split; vm_compute; reflexivity. }
    repeat split; vm_compute; reflexivity.
Qed.

(** The wait of the rollover: the duration is added to the last round's
    initial time, both sums modulo 2^64. *)
Lemma wrap64_duration (steps interval last : Z) :
  wrap64 (wrap64 (steps * interval) + last) = wrap64 (last + steps * interval).
Proof.
  unfold wrap64. rewrite Zplus_mod_idemp_l. f_equal. lia.
Qed.

(** C3 (amended).  With three aggregators, going from aggregator 2 back to
    aggregator 2 counts 3 steps, not 0.  On the block-production path, with
    [since] (its low 56 bits) at or past the last round's initial time plus
    the interval and every check outside the rollover branch passing,
    [main] accepts exactly when the new state opens a round (initial time
    equal to its subblock time, subblock index 0) and [since] is at or past
    the last round's initial time plus [steps] intervals.  [steps] is
    (current index + aggregator count - last index) modulo the aggregator
    count, replaced by the aggregator count when that is 0; the difference
    and the two sums with the last round's initial time are taken modulo
    2^64.  When the last index is at most the current index plus the
    aggregator count, in particular when it is in range, the steps are those
    of the same formula over the integers. *)
Theorem rollover_waits_for_steps :
  rollover_steps 2 3 2 = 3
  /\ (forall (tx : Transaction) (nb : NewBlock),
      block_production tx nb ->
      (length (tx_group_inputs tx) <= 1)%nat ->
      (length (tx_group_outputs tx) <= 1)%nat ->
      (forall args, script_args (tx_script tx) = Some args ->
                    length args = 64%nat) ->
      Z.shiftr (nb_since nb) 56
      = (if interval_uses_seconds (nb_setup nb) then 64 else 0) ->
      subblock_subtime (nb_current nb) = since_value (nb_since nb) ->
      validate_single_signing
        (identity_at (identities (nb_setup nb)) (identity_size (nb_setup nb))
                     (aggregator_index (nb_current nb)))
        (identity_size (nb_setup nb)) (tx_inputs tx) = CKB_SUCCESS ->
      wrap64 (round_initial_subtime (nb_last nb)
              + subblock_intervals (nb_setup nb))
      <= since_value (nb_since nb) ->
      let n := aggregator_number (nb_setup nb) in
      let remainder :=
        wrap64 ((aggregator_index (nb_current nb) + n)
                - aggregator_index (nb_last nb)) mod n in
      let steps := if remainder =? 0 then n else remainder in
      main tx = CKB_SUCCESS
      <-> round_initial_subtime (nb_current nb) = subblock_subtime (nb_current nb)
          /\ subblock_index (nb_current nb) = 0
          /\ wrap64 (round_initial_subtime (nb_last nb)
                     + steps * subblock_intervals (nb_setup nb))
             <= since_value (nb_since nb))
  /\ (forall current n last : Z,
      0 <= last <= current + n ->
      current + n < 2 ^ 64 ->
      rollover_steps current n last
      = (if (current + n - last) mod n =? 0 then n
         else (current + n - last) mod n)).
Proof.
  split; [reflexivity|]. split.
  - intros tx nb Hbp Hin Hout Hargs Hmode Htime Hsign Hnext. cbv zeta.
    rewrite (main_on_block_production tx nb Hbp).
    pose proof (rollover_steps_unfold (aggregator_index (nb_current nb))
                  (aggregator_number (nb_setup nb))
                  (aggregator_index (nb_last nb))) as Hsteps.
    pose proof (wrap64_duration
                  (rollover_steps (aggregator_index (nb_current nb))
                     (aggregator_number (nb_setup nb))
                     (aggregator_index (nb_last nb)))
                  (subblock_intervals (nb_setup nb))
                  (round_initial_subtime (nb_last nb))) as Hduration.
    rewrite Hsteps in Hduration at 2.
    split.
    + intros (_ & _ & _ & Hcheck & _).
      destruct (check_new_block_accepts nb Hcheck) as (_ & _ & _ & Hroll).
      destruct (Hroll Hnext) as (Hinit & Hidx & Hwait).
      split; [exact Hinit|]. split; [exact Hidx|].
      rewrite <- Hduration. exact Hwait.
    + intros (Hinit & Hidx & Hwait).
      split; [exact Hin|]. split; [exact Hout|]. split; [exact Hargs|].
      split; [|exact Hsign].
      apply check_new_block_complete.
      split; [exact Hmode|]. split; [exact Htime|]. right.
      split; [exact Hnext|]. split; [exact Hinit|]. split; [exact Hidx|].
      rewrite Hduration. exact Hwait.
  - intros current n last Hlast Hsum.
    rewrite rollover_steps_unfold.
    rewrite (wrap64_small (current + n - last)) by lia.
    reflexivity.
Qed.

Lemma rollover_waits_for_steps_witness :
  main Build.rollover_tx = CKB_SUCCESS
  <-> round_initial_subtime (nb_current Build.rollover_block)
      = subblock_subtime (nb_current Build.rollover_block)
      /\ subblock_index (nb_current Build.rollover_block) = 0
      /\ wrap64 (round_initial_subtime (nb_last Build.rollover_block)
                 + 1 * subblock_intervals (nb_setup Build.rollover_block))
         <= since_value (nb_since Build.rollover_block).
Proof.
  assert (Hbp : block_production Build.rollover_tx Build.rollover_block).
  { exists (Build.setup_id ++ Build.data_id), 0.
    repeat split; vm_compute; reflexivity. }
  assert (Hin : (length (tx_group_inputs Build.rollover_tx) <= 1)%nat)
    by (simpl; lia).
  assert (Hout : (length (tx_group_outputs Build.rollover_tx) <= 1)%nat)
    by (simpl; lia).
  assert (Hargs : forall args,
             script_args (tx_script Build.rollover_tx) = Some args ->
             length args = 64%nat).
  { intros args Hsome. injection Hsome as <-. reflexivity. }
  assert (Hmode : Z.shiftr (nb_since Build.rollover_block) 56
                  = (if interval_uses_seconds (nb_setup Build.rollover_block)
                     then 64 else 0))
    by (vm_compute; reflexivity).
  assert (Htime : subblock_subtime (nb_current Build.rollover_block)
                  = since_value (nb_since Build.rollover_block))
    by (vm_compute; reflexivity).
  assert (Hsign : validate_single_signing
                    (identity_at (identities (nb_setup Build.rollover_block))
                                 (identity_size (nb_setup Build.rollover_block))
                                 (aggregator_index
                                    (nb_current Build.rollover_block)))
                    (identity_size (nb_setup Build.rollover_block))
                    (tx_inputs Build.rollover_tx) = CKB_SUCCESS)
    by (vm_compute; reflexivity).
  assert (Hnext : wrap64 (round_initial_subtime (nb_last Build.rollover_block)
                          + subblock_intervals (nb_setup Build.rollover_block))
                  <= since_value (nb_since Build.rollover_block))
    by (vm_compute; discriminate).
  exact (proj1 (proj2 rollover_waits_for_steps) _ _
               Hbp Hin Hout Hargs Hmode Htime Hsign Hnext).
Defined.

(** C3 as the specification words it, over the integers, fails on two
    transactions that [main] accepts.  In the first the data cell consumed
    names aggregator 7 of 3 and aggregator 1 takes over at time 1105, past
    the last round's initial time 1000 plus the interval 100: over the
    integers (1 + 3 - 7) mod 3 is 0, so the steps would be 3 and the wait
    would last until 1300, while the script takes the difference modulo 2^64
    and counts 1 step.  In the second the last round started at 2^64 - 50
    and aggregator 1 opens a round at time 60: the step count is 1 either
    way, and 60 is below the last round's initial time plus one interval,
    which is 50 modulo 2^64. *)
Lemma rollover_fails_over_the_integers :
  (block_production Build.stray_index_tx Build.stray_index_block
   /\ main Build.stray_index_tx = CKB_SUCCESS
   /\ round_initial_subtime (nb_last Build.stray_index_block)
      + subblock_intervals (nb_setup Build.stray_index_block)
      <= since_value (nb_since Build.stray_index_block)
   /\ (aggregator_index (nb_current Build.stray_index_block)
       + aggregator_number (nb_setup Build.stray_index_block)
       - aggregator_index (nb_last Build.stray_index_block))
      mod aggregator_number (nb_setup Build.stray_index_block) = 0
   /\ since_value (nb_since Build.stray_index_block)
      < round_initial_subtime (nb_last Build.stray_index_block)
        + aggregator_number (nb_setup Build.stray_index_block)
          * subblock_intervals (nb_setup Build.stray_index_block)
   /\ rollover_steps (aggregator_index (nb_current Build.stray_index_block))
                     (aggregator_number (nb_setup Build.stray_index_block))
                     (aggregator_index (nb_last Build.stray_index_block)) = 1)
  /\ (block_production Samples.time_wrap_tx Samples.time_wrap_block
      /\ main Samples.time_wrap_tx = CKB_SUCCESS
      /\ round_initial_subtime (nb_current Samples.time_wrap_block)
         = subblock_subtime (nb_current Samples.time_wrap_block)
      /\ subblock_index (nb_current Samples.time_wrap_block) = 0
      /\ (aggregator_index (nb_current Samples.time_wrap_block)
          + aggregator_number (nb_setup Samples.time_wrap_block)
          - aggregator_index (nb_last Samples.time_wrap_block))
         mod aggregator_number (nb_setup Samples.time_wrap_block) = 1
      /\ since_value (nb_since Samples.time_wrap_block)
         < round_initial_subtime (nb_last Samples.time_wrap_block)
           + 1 * subblock_intervals (nb_setup Samples.time_wrap_block)
      /\ wrap64 (round_initial_subtime (nb_last Samples.time_wrap_block)
                 + 1 * subblock_intervals (nb_setup Samples.time_wrap_block))
         = 50).
Proof.
  split.
  - split.
    { exists (Build.setup_id ++ Build.data_id), 0.
      repeat split; vm_compute; reflexivity. }
    split; [vm_compute; reflexivity|].
    split; [vm_compute; discriminate|].
    repeat split; vm_compute; reflexivity.
  - split.
    { exists (Build.setup_id ++ Build.data_id), 0.
      repeat split; vm_compute; reflexivity. }
    repeat split; vm_compute; reflexivity.
Qed.

(** C9.  Of the two round states only the new one has its aggregator index
    checked against the aggregator count.  The index of the consumed state
    is used as it comes: there is a transaction, accepted by [main] on the
    rollover branch, whose consumed state names aggregator 7 of 3. *)
Theorem last_aggregator_index_is_not_checked :
  (forall (tx : Transaction) (nb : NewBlock),
      block_production tx nb ->
      aggregator_index (nb_current nb) < aggregator_number (nb_setup nb))
  /\ exists (tx : Transaction) (nb : NewBlock),
      block_production tx nb
      /\ main tx = CKB_SUCCESS
      /\ aggregator_number (nb_setup nb) <= aggregator_index (nb_last nb)
      /\ round_initial_subtime (nb_last nb) + subblock_intervals (nb_setup nb)
         <= since_value (nb_since nb)
      /\ rollover_steps (aggregator_index (nb_current nb))
                        (aggregator_number (nb_setup nb))
                        (aggregator_index (nb_last nb)) = 1.
Proof.
  split.
  - intros tx nb (args & dep & _ & _ & _ & Hload).
    exact (proj1 (load_new_block_inv tx args dep nb Hload)).
  - exists Build.stray_index_tx, Build.stray_index_block.
    split.
    { exists (Build.setup_id ++ Build.data_id), 0.
      repeat split; vm_compute; reflexivity. }
    split; [vm_compute; reflexivity|].
    split; [vm_compute; discriminate|].
    split; [vm_compute; discriminate | vm_compute; reflexivity].
Qed.

Lemma last_aggregator_index_is_not_checked_witness :
  aggregator_index (nb_current Build.stray_index_block)
  < aggregator_number (nb_setup Build.stray_index_block).
Proof.
  apply (proj1 last_aggregator_index_is_not_checked Build.stray_index_tx).
  exists (Build.setup_id ++ Build.data_id), 0.
  repeat split; vm_compute; reflexivity.
Defined.

(** ** The threshold check *)

(** The ghost log does not change the result. *)
Lemma consensus_trace_result (identity_buffer : list byte)
      (identity_size identity_count threshold : Z) (inputs : list Cell) :
  forall current mask found credited,
    fst (consensus_trace identity_buffer identity_size identity_count threshold
                         inputs current mask found credited)
    = consensus_loop identity_buffer identity_size identity_count threshold
                     inputs current mask found.
Proof.
  induction inputs as [|c rest IH]; intros current mask found credited;
    cbn [consensus_trace consensus_loop].
  - destruct (current <? SIZE_MAX); reflexivity.
  - destruct (current <? SIZE_MAX); [|reflexivity].
    destruct (read_ret (cell_lock_hash c) =? CKB_INDEX_OUT_OF_BOUND); [reflexivity|].
    destruct (negb (read_ret (cell_lock_hash c) =? CKB_SUCCESS)); [reflexivity|].
    cbv zeta.
    destruct (find_identity mask (read_buf (cell_lock_hash c) 32) identity_buffer
                identity_size (Z.to_nat identity_count) 0 <? identity_count).
    + destruct (wrap8 (found + 1) =? threshold); [reflexivity | apply IH].
    + apply IH.
Qed.

Lemma consensus_credits_result (identity_buffer : list byte)
      (identity_size identity_count threshold : Z) (inputs : list Cell) :
  fst (consensus_credits identity_buffer identity_size identity_count threshold
                         inputs)
  = validate_consensus_signing identity_buffer identity_size identity_count
                               threshold inputs.
Proof. apply consensus_trace_result. Qed.

(** C1 (the code departs from the claim).  With thirty-three aggregators
    and a change threshold of 2, two inputs locked by the last aggregator
    (index 32) and no other signer are enough: index 32 is credited twice,
    the check returns success, and [main] accepts the replacement of the
    setup cell.  Marking index 32 computes [1 << 32] on an [int], which does
    not set bit 32 of the mask word. *)
Theorem consensus_credits_last_identity_twice :
  consensus_credits Build.thirty_three_identities 1 33 2 (Build.signed_by_last 2)
  = (CKB_SUCCESS, [32; 32])
  /\ mask_mark [0; 0; 0; 0] 32 = [1; 0; 0; 0]
  /\ main (Build.consensus_tx (Build.thirty_three_aggregators 2)
                              (Build.signed_by_last 2))
     = CKB_SUCCESS.
Proof. repeat split; vm_compute; reflexivity. Qed.

(** C10 (the code departs from the claim).  With a change threshold of 0
    the check does not reject everything: [found] is an 8-bit counter, and
    with thirty-three aggregators 256 inputs locked by the last one are each
    credited, which brings [found] back to 0, equal to the threshold.  With
    255 such inputs the check still rejects. *)
Theorem zero_threshold_accepts_after_wrap :
  validate_consensus_signing Build.thirty_three_identities 1 33 0
                             (Build.signed_by_last 256)
  = CKB_SUCCESS
  /\ validate_consensus_signing Build.thirty_three_identities 1 33 0
                                (Build.signed_by_last 255)
     = ERROR_ENCODING
  /\ main (Build.consensus_tx (Build.thirty_three_aggregators 0)
                              (Build.signed_by_last 256))
     = CKB_SUCCESS.
Proof. repeat split; vm_compute; reflexivity. Qed.

(** *** The mask on the first 32 identities *)

Lemma mask_test_first_word (m : Z) (rest : list Z) (k : Z) :
  0 <= k < 64 -> mask_test (m :: rest) k = Z.testbit m k.
Proof.
  intros Hk. unfold mask_test, mask_word.
  rewrite Z.div_small, Z.mod_small by lia. cbn [Z.to_nat nth].
  rewrite Z.testbit_odd.
  change 1 with (Z.ones 1) at 1. rewrite Z.land_ones by lia.
  change (2 ^ 1) with 2. rewrite Zmod_odd.
  destruct (Z.odd (Z.shiftr m k)); reflexivity.
Qed.

Lemma mask_mark_first_word (m : Z) (rest : list Z) (k : Z) :
  0 <= k < 64 ->
  mask_mark (m :: rest) k = Z.lor m (to_uint64 (int_shl 1 k)) :: rest.
Proof.
  intros Hk. unfold mask_mark, mask_word.
  rewrite Z.div_small, Z.mod_small by lia. reflexivity.
Qed.

(** Bit [j] of [1 << k], for [j] and [k] below 32. *)
Lemma shifted_one_bits_table :
  forallb (fun k =>
    forallb (fun j =>
      Bool.eqb (Z.testbit (to_uint64 (int_shl 1 (Z.of_nat k))) (Z.of_nat j))
               (Nat.eqb j k))
      (seq 0 32))
    (seq 0 32) = true.
Proof. vm_compute. reflexivity. Qed.

Lemma shifted_one_bits (k j : Z) :
  0 <= k < 32 -> 0 <= j < 32 ->
  Z.testbit (to_uint64 (int_shl 1 k)) j = (j =? k).
Proof.
  intros Hk Hj. pose proof shifted_one_bits_table as T.
  rewrite forallb_forall in T.
  specialize (T (Z.to_nat k)). rewrite in_seq in T.
  specialize (T ltac:(lia)). rewrite forallb_forall in T.
  specialize (T (Z.to_nat j)). rewrite in_seq in T.
  specialize (T ltac:(lia)). apply Bool.eqb_prop in T.
  rewrite !Z2Nat.id in T by lia. rewrite T.
  destruct (Nat.eqb_spec (Z.to_nat j) (Z.to_nat k)) as [E | E];
    destruct (Z.eqb_spec j k); try reflexivity; lia.
Qed.

Lemma mask_test_mark (mask : list Z) (k j : Z) :
  mask <> [] -> 0 <= k < 32 -> 0 <= j < 32 ->
  mask_test (mask_mark mask k) j = mask_test mask j || (j =? k).
Proof.
  intros Hmask Hk Hj. destruct mask as [|m rest]; [contradiction|].
  rewrite mask_mark_first_word by lia. rewrite !mask_test_first_word by lia.
  rewrite Z.lor_spec, shifted_one_bits by lia. reflexivity.
Qed.

Lemma mask_mark_nonempty (mask : list Z) (k : Z) :
  mask <> [] -> mask_mark mask k <> [].
Proof.
  intros Hmask. destruct mask as [|m rest]; [contradiction|].
  unfold mask_mark. destruct (Z.to_nat (k / 64)); discriminate.
Qed.

Lemma mask_tracks_mark (mask : list Z) (credited : list Z) (k : Z) :
  mask <> [] -> 0 <= k < 32 ->
  mask_tracks mask credited ->
  mask_tracks (mask_mark mask k) (credited ++ [k]).
Proof.
  intros Hmask Hk Htr j Hj.
  rewrite mask_test_mark by assumption.
  rewrite orb_true_iff, in_app_iff, (Htr j Hj), Z.eqb_eq.
  cbn [In]. intuition congruence.
Qed.

(** *** The inner loop *)

Lemma find_identity_spec (mask : list Z) (hash identity_buffer : list byte)
      (identity_size : Z) (n : nat) :
  forall start,
    let r := find_identity mask hash identity_buffer identity_size n start in
    start <= r <= start + Z.of_nat n
    /\ (r < start + Z.of_nat n ->
        mask_test mask r = false
        /\ memcmp_eq hash (identity_at identity_buffer identity_size r)
                     identity_size = true).
Proof.
  induction n as [|n IH]; intros start; cbn [find_identity].
  - cbv zeta. split; [lia | intros H; lia].
  - cbv zeta.
    destruct (negb (mask_test mask start)
              && memcmp_eq hash (identity_at identity_buffer identity_size start)
                           identity_size) eqn:Hhit.
    + split; [lia|]. intros _.
      apply andb_true_iff in Hhit. destruct Hhit as [Hm Hc].
      apply negb_true_iff in Hm. split; assumption.
    + specialize (IH (start + 1)). cbv zeta in IH.
      destruct IH as [Hrange Hfound].
      split; [lia|]. intros Hlt. apply Hfound. lia.
Qed.

(** *** The outer loop, for at most 32 identities *)

Lemma NoDup_snoc (l : list Z) (x : Z) :
  NoDup l -> ~ In x l -> NoDup (l ++ [x]).
Proof.
  intros Hl Hx. induction Hl as [|y l Hy Hl IH]; cbn [app].
  - constructor; [intros [] | constructor].
  - constructor.
    + rewrite in_app_iff. cbn [In]. intros [H | [H | []]]; [contradiction|].
      apply Hx. left. symmetry. exact H.
    + apply IH. intros H. apply Hx. right. exact H.
Qed.

Lemma bounded_NoDup_length (n : Z) (l : list Z) :
  0 <= n -> NoDup l -> Forall (fun k => 0 <= k < n) l ->
  Z.of_nat (length l) <= n.
Proof.
  intros Hn Hnd Hall.
  assert (Hincl : incl l (map Z.of_nat (seq 0 (Z.to_nat n)))).
  { intros k Hk. rewrite Forall_forall in Hall. specialize (Hall k Hk).
    apply in_map_iff. exists (Z.to_nat k). split; [lia|].
    apply in_seq. lia. }
  pose proof (NoDup_incl_length Hnd Hincl) as Hle.
  rewrite length_map, length_seq in Hle. lia.
Qed.

(** The iteration leaves the log as it is. *)
Ltac log_unchanged :=
  cbn [fst snd];
  split; [assumption|]; split; [assumption|]; split; [assumption|].

Section Within32.

Variable identity_buffer : list byte.
Variables identity_size identity_count : Z.
Hypothesis count_within_32 : 0 <= identity_count <= 32.
Hypothesis size_within_hash : identity_size <= 32.

(** The invariant of the loop: the log has no repetition, holds indices
    of the setup only, each backed by an input of [all], and the mask
    marks exactly the logged indices; the counter is the length of the
    log.  On success the log has [threshold] entries. *)
Lemma consensus_trace_sound (threshold : Z) (all : list Cell) :
  forall inputs current mask found credited,
    incl inputs all ->
    mask <> [] ->
    mask_tracks mask credited ->
    NoDup credited ->
    Forall (index_below identity_count) credited ->
    Forall (backed_by identity_buffer identity_size all) credited ->
    found = Z.of_nat (length credited) ->
    let res := consensus_trace identity_buffer identity_size identity_count
                               threshold inputs current mask found credited in
    NoDup (snd res)
    /\ Forall (index_below identity_count) (snd res)
    /\ Forall (backed_by identity_buffer identity_size all) (snd res)
    /\ (fst res = CKB_SUCCESS ->
        Z.of_nat (length (snd res)) = threshold /\ snd res <> []).
Proof.
  induction inputs as [|c rest IH];
    intros current mask found credited Hincl Hmask Htr Hnd Hrange Hback Hfound;
    cbn [consensus_trace].
  - destruct (current <? SIZE_MAX); log_unchanged; discriminate.
  - destruct (current <? SIZE_MAX); [|log_unchanged; discriminate].
    destruct (read_ret (cell_lock_hash c) =? CKB_INDEX_OUT_OF_BOUND);
      [log_unchanged; discriminate|].
    destruct (Z.eqb_spec (read_ret (cell_lock_hash c)) CKB_SUCCESS)
      as [Hret | Hret]; cbn [negb];
      [|log_unchanged; intros H; contradiction].
    cbv zeta.
    pose proof (find_identity_spec mask (read_buf (cell_lock_hash c) 32)
                  identity_buffer identity_size (Z.to_nat identity_count) 0)
      as Hfind.
    cbv zeta in Hfind.
    set (k := find_identity mask (read_buf (cell_lock_hash c) 32)
                identity_buffer identity_size (Z.to_nat identity_count) 0) in *.
    rewrite Z2Nat.id in Hfind by lia. destruct Hfind as [Hk Hhit].
    assert (Hrest : incl rest all)
      by (intros x Hx; apply Hincl; right; exact Hx).
    destruct (Z.ltb_spec k identity_count) as [Hlt | Hge];
      [|apply IH; assumption].
    destruct (Hhit ltac:(lia)) as [Hfree Hmatch].
    assert (Hnew : ~ In k credited).
    { intros Hin. apply (Htr k ltac:(lia)) in Hin. congruence. }
    assert (Hnd' : NoDup (credited ++ [k])) by (apply NoDup_snoc; assumption).
    assert (Hrange' : Forall (index_below identity_count) (credited ++ [k])).
    { apply Forall_app. split; [exact Hrange|].
      constructor; [unfold index_below; lia | constructor]. }
    assert (Hback' : Forall (backed_by identity_buffer identity_size all)
                            (credited ++ [k])).
    { apply Forall_app. split; [exact Hback|]. constructor; [|constructor].
      unfold backed_by. apply Exists_exists. exists c.
      split; [apply Hincl; left; reflexivity|].
      split; [exact Hret|].
      apply memcmp_hash_buffer; assumption. }
    assert (Hlen' : wrap8 (found + 1) = Z.of_nat (length (credited ++ [k]))).
    { pose proof (bounded_NoDup_length identity_count _ ltac:(lia) Hnd' Hrange')
        as Hle.
      rewrite length_app in Hle |- *. cbn [length] in Hle |- *.
      unfold wrap8. rewrite Z.mod_small; lia. }
    destruct (Z.eqb_spec (wrap8 (found + 1)) threshold) as [Hthr | Hthr].
    + log_unchanged. intros _. split; [congruence|].
      destruct credited; discriminate.
    + apply IH; try assumption.
      * apply mask_mark_nonempty. exact Hmask.
      * apply mask_tracks_mark; [exact Hmask | lia | exact Htr].
Qed.

(** With at most 32 identities no identity is credited twice, every
    credit is backed by an input locked by that identity, and the check
    succeeds only with exactly [threshold] credits. *)
Lemma consensus_credits_sound (threshold : Z) (inputs : list Cell) :
  let res := consensus_credits identity_buffer identity_size identity_count
                               threshold inputs in
  NoDup (snd res)
  /\ Forall (fun k => 0 <= k < identity_count) (snd res)
  /\ Forall (backed_by identity_buffer identity_size inputs) (snd res)
  /\ (fst res = CKB_SUCCESS ->
      Z.of_nat (length (snd res)) = threshold /\ snd res <> []).
Proof.
  unfold consensus_credits.
  apply consensus_trace_sound.
  - apply incl_refl.
  - discriminate.
  - intros k Hk. rewrite mask_test_first_word by lia.
    rewrite Z.testbit_0_l. split; [discriminate | intros []].
  - constructor.
  - constructor.
  - constructor.
  - reflexivity.
Qed.

(** With at most 32 identities, acceptance takes [threshold] different
    identities of the setup, each with an input of its own lock. *)
Lemma consensus_accepts_distinct_signers (threshold : Z) (inputs : list Cell) :
  validate_consensus_signing identity_buffer identity_size identity_count
                             threshold inputs = CKB_SUCCESS ->
  exists signers : list Z,
    NoDup signers
    /\ Z.of_nat (length signers) = threshold
    /\ Forall (fun k => 0 <= k < identity_count
                        /\ backed_by identity_buffer identity_size inputs k)
              signers.
Proof.
  intros Hacc. rewrite <- consensus_credits_result in Hacc.
  destruct (consensus_credits_sound threshold inputs)
    as (Hnd & Hrange & Hback & Hthr).
  destruct (Hthr Hacc) as [Hlen _].
  exists (snd (consensus_credits identity_buffer identity_size identity_count
                                 threshold inputs)).
  split; [exact Hnd|]. split; [exact Hlen|].
  rewrite Forall_forall in *. intros k Hk. split; auto.
Qed.

(** X16.  With at most 32 identities a threshold of 0 is never met. *)
Lemma zero_threshold_rejects_within_32 (inputs : list Cell) :
  validate_consensus_signing identity_buffer identity_size identity_count 0
                             inputs <> CKB_SUCCESS.
Proof.
  intros Hacc. rewrite <- consensus_credits_result in Hacc.
  destruct (consensus_credits_sound 0 inputs) as (_ & _ & _ & Hthr).
  destruct (Hthr Hacc) as [Hlen Hne].
  destruct (snd (consensus_credits identity_buffer identity_size
                                   identity_count 0 inputs));
    [contradiction | discriminate].
Qed.

End Within32.

(** X17.  Two identities and a threshold of 2: without an input locked by the
    second identity the check rejects, however many inputs are locked by
    the first. *)
Lemma two_identities_need_both (identity_buffer : list byte)
      (identity_size : Z) (inputs : list Cell) :
  identity_size <= 32 ->
  ~ backed_by identity_buffer identity_size inputs 1 ->
  validate_consensus_signing identity_buffer identity_size 2 2 inputs
  <> CKB_SUCCESS.
Proof.
  intros Hsize Hno Hacc.
  destruct (consensus_accepts_distinct_signers identity_buffer identity_size 2
              ltac:(lia) Hsize 2 inputs Hacc) as (signers & Hnd & Hlen & Hall).
  destruct signers as [|a [|b [|c l]]]; cbn [length] in Hlen; try lia.
  inversion Hall as [|? ? [Ha Hba] Hall']; subst.
  inversion Hall' as [|? ? [Hb Hbb] _]; subst.
  inversion Hnd as [|? ? Hnotin _]; subst.
  assert (a = 1 \/ b = 1) as [-> | ->].
  { destruct (Z.eq_dec a b) as [-> |]; [exfalso; apply Hnotin; left; reflexivity|].
    lia. }
  - exact (Hno Hba).
  - exact (Hno Hbb).
Qed.

(** *** What an [int] can mark

    Whatever value the shift of line 131 yields for a count of 32 or more,
    it is an [int], and its conversion to [uint64_t] for the [|=] extends the
    sign: the bit meant for the identity is either left clear, or set
    together with every bit from 31 up.  No [int] marks one identity among
    those with [k % 64 >= 32]. *)
Lemma int_cannot_mark_high_bit (v k : Z) :
  - 2 ^ 31 <= v < 2 ^ 31 ->
  32 <= k < 64 ->
  Z.testbit (to_uint64 v) k = true ->
  forall j, 31 <= j < 64 -> Z.testbit (to_uint64 v) j = true.
Proof.
  intros Hv Hk Hbit j Hj. unfold to_uint64, wrap64 in *.
  rewrite Z.mod_pow2_bits_low in Hbit |- * by lia.
  destruct (Z.neg_nonneg_cases v) as [Hneg | Hpos].
  - replace v with (- (Z.succ (- v - 1))) by lia.
    rewrite Z.bits_opp, Z.pred_succ by lia.
    rewrite <- (Z.mod_small (- v - 1) (2 ^ 31)) by lia.
    rewrite Z.mod_pow2_bits_high by lia. reflexivity.
  - rewrite <- (Z.mod_small v (2 ^ 31)) in Hbit by lia.
    rewrite Z.mod_pow2_bits_high in Hbit by lia. discriminate.
Qed.

(** ** Block production in exact arithmetic

    The sums of the round checks are 64-bit and 32-bit unsigned sums.  The
    lemmas below give the ranges of the loaded values and restate the two
    branches over the integers, for states on which no sum wraps. *)

Lemma read_le_range (buf : list byte) (off width : nat) :
  0 <= read_le buf off width < 256 ^ Z.of_nat width.
Proof.
  unfold read_le, slice.
  pose proof (le_decode_range (firstn width (skipn off buf))) as H.
  pose proof (firstn_le_length width (skipn off buf)) as Hlen.
  split; [lia|].
  apply Z.lt_le_trans with (1 := proj2 H).
  apply Z.pow_le_mono_r; lia.
Qed.

Lemma subblock_info_range (buf : list byte) :
  let info := subblock_info_of buf in
  0 <= round_initial_subtime info < 2 ^ 64
  /\ 0 <= subblock_subtime info < 2 ^ 64
  /\ 0 <= subblock_index info < 2 ^ 32
  /\ 0 <= aggregator_index info < 2 ^ 16.
Proof.
  cbv zeta. unfold subblock_info_of.
  cbn [round_initial_subtime subblock_subtime subblock_index aggregator_index].
  pose proof (read_le_range buf 0 8). pose proof (read_le_range buf 8 8).
  pose proof (read_le_range buf 16 4). pose proof (read_le_range buf 20 2).
  change (256 ^ Z.of_nat 8) with (2 ^ 64) in *.
  change (256 ^ Z.of_nat 4) with (2 ^ 32) in *.
  change (256 ^ Z.of_nat 2) with (2 ^ 16) in *.
  repeat split; lia.
Qed.

Lemma parse_poa_setup_range (data : list byte) (setup : PoASetup) :
  parse_poa_setup data = Ok setup ->
  0 <= aggregator_number setup < 256
  /\ 0 <= subblock_intervals setup < 2 ^ 32
  /\ 0 <= subblocks_per_interval setup < 2 ^ 32
  /\ 0 <= identity_size setup <= 32.
Proof.
  unfold parse_poa_setup. cbv zeta.
  destruct (Z.of_nat (length data) <? 12); [discriminate|].
  destruct (Z.gtb_spec (identity_size (poa_setup_of data)) IDENTITY_SIZE)
    as [|Hsize]; [discriminate|].
  destruct (aggregator_change_threshold (poa_setup_of data)
            >? aggregator_number (poa_setup_of data)); [discriminate|].
  destruct (negb _); [discriminate|].
  intros H. injection H as <-.
  cbn [aggregator_number subblock_intervals subblocks_per_interval identity_size
       poa_setup_of] in *.
  pose proof (byte_at_range data 1). pose proof (byte_at_range data 2).
  pose proof (read_le_range data 4 4). pose proof (read_le_range data 8 4).
  change (256 ^ Z.of_nat 4) with (2 ^ 32) in *.
  unfold IDENTITY_SIZE in Hsize.
  repeat split; lia.
Qed.

Lemma load_new_block_range (tx : Transaction) (args : list byte) (dep : Z)
      (nb : NewBlock) :
  load_new_block tx args dep = Ok nb ->
  0 <= round_initial_subtime (nb_last nb) < 2 ^ 64
  /\ 0 <= subblock_index (nb_last nb) < 2 ^ 32
  /\ 0 <= aggregator_index (nb_last nb) < 2 ^ 16
  /\ 0 <= aggregator_index (nb_current nb) < aggregator_number (nb_setup nb)
  /\ aggregator_number (nb_setup nb) < 256
  /\ 0 <= subblock_intervals (nb_setup nb) < 2 ^ 32.
Proof.
  unfold load_new_block.
  destruct (load_poa_setup (tx_cell_deps tx) dep) as [setup|] eqn:Hsetup;
    [|discriminate].
  destruct (look_for_poa_cell (skipn 32 args) (tx_inputs tx)) as [i|]; [|discriminate].
  destruct (load_poa_data (tx_inputs tx) i) as [last|]; [|discriminate].
  destruct (look_for_poa_cell (skipn 32 args) (tx_outputs tx)) as [o|]; [|discriminate].
  destruct (load_poa_data (tx_outputs tx) o) as [cur|]; [|discriminate].
  cbv zeta.
  destruct (Z.geb_spec (aggregator_index (subblock_info_of cur))
                       (aggregator_number setup)) as [|Hlt]; [discriminate|].
  destruct (negb _); [discriminate|].
  destruct (negb _); [discriminate|].
  intros H. injection H as <-. cbn [nb_last nb_current nb_setup].
  pose proof (subblock_info_range last) as Hl. cbv zeta in Hl.
  pose proof (subblock_info_range cur) as Hc. cbv zeta in Hc.
  assert (Hs : 0 <= aggregator_number setup < 256
               /\ 0 <= subblock_intervals setup < 2 ^ 32
               /\ 0 <= subblocks_per_interval setup < 2 ^ 32
               /\ 0 <= identity_size setup <= 32).
  { unfold load_poa_setup in Hsetup.
    destruct (negb _) in Hsetup; [discriminate|].
    destruct (_ >? _) in Hsetup; [discriminate|].
    exact (parse_poa_setup_range _ _ Hsetup). }
  repeat split; lia.
Qed.

(** X21.  The continuation branch over the integers: when the last round's
    initial time plus the interval stays below 2^64 and the last subblock
    index is not the largest 32-bit value. *)
Lemma same_round_continuation_exact (tx : Transaction) (nb : NewBlock) :
  block_production tx nb ->
  main tx = CKB_SUCCESS ->
  round_initial_subtime (nb_last nb) + subblock_intervals (nb_setup nb) < 2 ^ 64 ->
  subblock_index (nb_last nb) < 2 ^ 32 - 1 ->
  since_value (nb_since nb)
  < round_initial_subtime (nb_last nb) + subblock_intervals (nb_setup nb) ->
  round_initial_subtime (nb_current nb) = round_initial_subtime (nb_last nb)
  /\ subblock_subtime (nb_last nb) <= subblock_subtime (nb_current nb)
  /\ aggregator_index (nb_current nb) = aggregator_index (nb_last nb)
  /\ subblock_index (nb_current nb) = subblock_index (nb_last nb) + 1
  /\ subblock_index (nb_current nb) < subblocks_per_interval (nb_setup nb).
Proof.
  intros Hbp Hmain Hsum Hidx Hsame.
  destruct (main_accepts_new_block tx nb Hbp Hmain) as [Hcheck _].
  destruct Hbp as (args & dep & _ & _ & _ & Hload).
  pose proof (load_new_block_range tx args dep nb Hload) as Hr.
  destruct (check_new_block_accepts nb Hcheck) as (_ & _ & Hround & _).
  rewrite wrap64_small in Hround by lia.
  rewrite wrap32_small in Hround by lia.
  exact (Hround Hsame).
Qed.

(** X22.  The rollover branch over the integers: when the last aggregator index
    is in range and the last round's initial time plus a full cycle of
    intervals stays below 2^64. *)
Lemma rollover_exact (tx : Transaction) (nb : NewBlock) :
  block_production tx nb ->
  main tx = CKB_SUCCESS ->
  aggregator_index (nb_last nb) < aggregator_number (nb_setup nb) ->
  round_initial_subtime (nb_last nb)
  + aggregator_number (nb_setup nb) * subblock_intervals (nb_setup nb) < 2 ^ 64 ->
  round_initial_subtime (nb_last nb) + subblock_intervals (nb_setup nb)
  <= since_value (nb_since nb) ->
  let n := aggregator_number (nb_setup nb) in
  let remainder :=
    (aggregator_index (nb_current nb) + n - aggregator_index (nb_last nb)) mod n in
  let steps := if remainder =? 0 then n else remainder in
  round_initial_subtime (nb_current nb) = subblock_subtime (nb_current nb)
  /\ subblock_index (nb_current nb) = 0
  /\ round_initial_subtime (nb_last nb) + steps * subblock_intervals (nb_setup nb)
     <= since_value (nb_since nb).
Proof.
  intros Hbp Hmain Hlast Hsum Hnext. cbv zeta.
  destruct (main_accepts_new_block tx nb Hbp Hmain) as [Hcheck _].
  destruct Hbp as (args & dep & _ & _ & _ & Hload).
  pose proof (load_new_block_range tx args dep nb Hload) as Hr.
  destruct (check_new_block_accepts nb Hcheck) as (_ & _ & _ & Hroll).
  assert (Hn : 0 < aggregator_number (nb_setup nb)) by lia.
  assert (Hi : aggregator_number (nb_setup nb) * subblock_intervals (nb_setup nb)
               >= subblock_intervals (nb_setup nb)) by nia.
  rewrite wrap64_small in Hroll by lia.
  destruct (Hroll Hnext) as (Hinit & Hidx & Hwait).
  split; [exact Hinit|]. split; [exact Hidx|].
  rewrite rollover_steps_unfold in Hwait.
  rewrite (wrap64_small (aggregator_index (nb_current nb)
                         + aggregator_number (nb_setup nb)
                         - aggregator_index (nb_last nb))) in Hwait by lia.
  set (remainder := (aggregator_index (nb_current nb)
                     + aggregator_number (nb_setup nb)
                     - aggregator_index (nb_last nb))
                    mod aggregator_number (nb_setup nb)) in *.
  assert (Hrem : 0 <= remainder < aggregator_number (nb_setup nb))
    by (apply Z.mod_pos_bound; lia).
  set (steps := if remainder =? 0 then aggregator_number (nb_setup nb)
                else remainder) in *.
  assert (Hsteps : 1 <= steps <= aggregator_number (nb_setup nb)).
  { unfold steps. destruct (Z.eqb_spec remainder 0); lia. }
  assert (Hprod : 0 <= steps * subblock_intervals (nb_setup nb)
                  <= aggregator_number (nb_setup nb)
                     * subblock_intervals (nb_setup nb)) by nia.
  rewrite (wrap64_small (steps * subblock_intervals (nb_setup nb))) in Hwait by lia.
  rewrite wrap64_small in Hwait by lia.
  lia.
Qed.

(** ** The script on sample transactions

    Three aggregators with identities a0a0, a1a1, a2a2, an interval of 100
    and at most 5 subblocks per interval; the last state is round 1000,
    subblock 0, aggregator 0. *)

Example same_round_accepted :
  main Build.same_round_tx = CKB_SUCCESS.
Proof. vm_compute. reflexivity. Qed.

Example same_round_wrong_signer_rejected :
  main (Build.new_block_tx (Build.info 1000 1000 0 0) (Build.info 1000 1050 1 0)
                           (Build.since_timestamp 1050) xa1)
  = ERROR_ENCODING.
Proof. vm_compute. reflexivity. Qed.

Example rollover_to_next_aggregator_accepted :
  main Build.rollover_tx = CKB_SUCCESS.
Proof. vm_compute. reflexivity. Qed.

(** Aggregator 0 again: three intervals must pass, not one. *)
Example rollover_to_same_aggregator_waits :
  main (Build.new_block_tx (Build.info 1000 1000 0 0) (Build.info 1105 1105 0 0)
                           (Build.since_timestamp 1105) xa0)
  = ERROR_ENCODING
  /\ main (Build.new_block_tx (Build.info 1000 1000 0 0) (Build.info 1300 1300 0 0)
                              (Build.since_timestamp 1300) xa0)
     = CKB_SUCCESS.
Proof. split; vm_compute; reflexivity. Qed.

(** A block-number [since] does not serve a setup that counts seconds. *)
Example since_mode_mismatch_rejected :
  main (Build.new_block_tx (Build.info 1000 1000 0 0) (Build.info 1000 1050 1 0)
                           1050 xa0)
  = ERROR_ENCODING.
Proof. vm_compute. reflexivity. Qed.

(** Changing the setup takes two of the three aggregators, in any order;
    one aggregator signing twice does not do. *)
Example threshold_two_of_three :
  main (Build.consensus_tx Build.three_aggregators
          [Build.plain_cell (Build.lock_hash_of xa0);
           Build.plain_cell (Build.lock_hash_of xa2)]) = CKB_SUCCESS
  /\ main (Build.consensus_tx Build.three_aggregators
             [Build.plain_cell (Build.lock_hash_of xa2);
              Build.plain_cell (Build.lock_hash_of xa0)]) = CKB_SUCCESS
  /\ main (Build.consensus_tx Build.three_aggregators
             [Build.plain_cell (Build.lock_hash_of xa0)]) = ERROR_ENCODING
  /\ main (Build.consensus_tx Build.three_aggregators
             [Build.plain_cell (Build.lock_hash_of xa0);
              Build.plain_cell (Build.lock_hash_of xa0)]) = ERROR_ENCODING.
Proof. repeat split; vm_compute; reflexivity. Qed.

(** * Further properties *)

(** ** The cell locator, continued *)

Lemma bytes_eqb_refl (a : list byte) : bytes_eqb a a = true.
Proof. apply bytes_eqb_eq. reflexivity. Qed.

(** X1.  A cell is taken for the PoA cell of [type_id] exactly when its type
    script is, byte for byte, the 53-byte type-id prefix followed by the
    first 32 bytes of [type_id]. *)
Theorem is_poa_cell_iff (type_id : list byte) (r : FieldRead) :
  (32 <= length type_id)%nat ->
  is_poa_cell type_id r = true
  <-> snd r = type_id_script_prefix ++ firstn 32 type_id.
Proof.
  intros Hid. unfold is_poa_cell, read_len, read_buf. cbv zeta.
  assert (Hp : length type_id_script_prefix = 53%nat) by reflexivity.
  rewrite !andb_true_iff, Z.eqb_eq, !memcmp_eq_true.
  change (Z.to_nat 53) with 53%nat. change (Z.to_nat 32) with 32%nat.
  split.
  - intros [[Hlen Hpre] Hargs].
    assert (Hl : length (snd r) = 85%nat) by lia.
    rewrite (firstn_all2 (n := 85) (snd r)) in Hpre, Hargs by lia.
    rewrite <- (firstn_skipn 53 (snd r)) at 1.
    rewrite <- Hpre, Hargs.
    rewrite (firstn_all2 (n := 53) type_id_script_prefix) by (rewrite Hp; lia).
    rewrite (firstn_all2 (n := 32) (skipn 53 (snd r)))
      by (rewrite length_skipn; lia).
    reflexivity.
  - intros ->.
    assert (Hl : length (type_id_script_prefix ++ firstn 32 type_id) = 85%nat).
    { rewrite length_app, length_firstn, Hp. lia. }
    rewrite (firstn_all2 (n := 85)) by lia.
    split; [split|].
    + lia.
    + rewrite firstn_app, Hp. cbn [Nat.sub firstn]. rewrite app_nil_r. reflexivity.
    + rewrite skipn_app, Hp.
      change (skipn 53 type_id_script_prefix) with (@nil byte).
      change (53 - 53)%nat with 0%nat.
      cbn [app skipn]. rewrite firstn_firstn. reflexivity.
Qed.

Lemma is_poa_cell_iff_witness :
  is_poa_cell Build.data_id
              (CKB_SUCCESS, type_id_script_prefix ++ Build.data_id) = true
  <-> snd (CKB_SUCCESS, type_id_script_prefix ++ Build.data_id)
      = type_id_script_prefix ++ firstn 32 Build.data_id.
Proof.
  apply (is_poa_cell_iff Build.data_id
           (CKB_SUCCESS, type_id_script_prefix ++ Build.data_id)).
  simpl. lia.
Defined.

Lemma look_loop_found (type_id : list byte) (cells : list Cell) :
  forall current found_index f,
    look_loop type_id cells current found_index = Ok f ->
    f = found_index
    \/ (current <= f < current + Z.of_nat (length cells)
        /\ exists c, nth_error cells (Z.to_nat (f - current)) = Some c
                     /\ carries_type_id type_id c = true).
Proof.
  induction cells as [|c rest IH]; intros current found_index f;
    cbn [look_loop].
  - destruct (current <? SIZE_MAX); intros H; injection H as <-; left; reflexivity.
  - destruct (current <? SIZE_MAX);
      [|intros H; injection H as <-; left; reflexivity].
    assert (Hshift : forall g,
               current + 1 <= g < current + 1 + Z.of_nat (length rest)
               /\ (exists c', nth_error rest (Z.to_nat (g - (current + 1))) = Some c'
                              /\ carries_type_id type_id c' = true) ->
               current <= g < current + Z.of_nat (length (c :: rest))
               /\ exists c', nth_error (c :: rest) (Z.to_nat (g - current)) = Some c'
                             /\ carries_type_id type_id c' = true).
    { intros g [Hg (c' & Hnth & Hc')]. cbn [length]. split; [lia|].
      exists c'. split; [|exact Hc'].
      replace (Z.to_nat (g - current)) with (S (Z.to_nat (g - (current + 1))))
        by lia.
      exact Hnth. }
    destruct (read_ret (cell_type c) =? CKB_ITEM_MISSING).
    { intros H. destruct (IH _ _ _ H) as [-> | Hin];
        [left; reflexivity | right; apply Hshift; exact Hin]. }
    destruct (read_ret (cell_type c) =? CKB_SUCCESS) eqn:Hret;
      [|intros H; injection H as <-; left; reflexivity].
    destruct (is_poa_cell type_id (cell_type c)) eqn:Hpoa.
    + destruct (negb (found_index =? SIZE_MAX)); [discriminate|].
      intros H. destruct (IH _ _ _ H) as [-> | Hin].
      * right. cbn [length]. split; [lia|]. exists c.
        rewrite Z.sub_diag. split; [reflexivity|].
        unfold carries_type_id. rewrite Hret, Hpoa. reflexivity.
      * right. apply Hshift. exact Hin.
    + intros H. destruct (IH _ _ _ H) as [-> | Hin];
        [left; reflexivity | right; apply Hshift; exact Hin].
Qed.

(** X2.  Whatever the host answers, an index that the locator returns is the
    index of a cell of the side, whose type field was read with success and
    is the type-id script looked for: the data load that follows reads an
    existing PoA cell. *)
Theorem look_for_poa_cell_found (type_id : list byte) (cells : list Cell)
        (index : Z) :
  look_for_poa_cell type_id cells = Ok index ->
  0 <= index < Z.of_nat (length cells)
  /\ exists c, nth_error cells (Z.to_nat index) = Some c
               /\ read_ret (cell_type c) = CKB_SUCCESS
               /\ is_poa_cell type_id (cell_type c) = true.
Proof.
  unfold look_for_poa_cell.
  destruct (look_loop type_id cells 0 SIZE_MAX) as [f|] eqn:Hloop; [|discriminate].
  destruct (Z.eqb_spec f SIZE_MAX) as [|Hf]; [discriminate|].
  intros H. injection H as <-.
  destruct (look_loop_found _ _ _ _ _ Hloop) as [-> | [Hrange (c & Hnth & Hc)]];
    [contradiction|].
  split; [lia|]. exists c. rewrite Z.sub_0_r in Hnth.
  unfold carries_type_id in Hc. apply andb_true_iff in Hc.
  destruct Hc as [Hret Hpoa]. apply Z.eqb_eq in Hret.
  repeat split; assumption.
Qed.

Lemma look_for_poa_cell_found_witness :
  0 <= 0 < Z.of_nat (length (tx_inputs Build.same_round_tx)).
Proof.
  apply (look_for_poa_cell_found Build.data_id (tx_inputs Build.same_round_tx) 0).
  vm_compute. reflexivity.
Defined.

Lemma poa_positions_range (type_id : list byte) (cells : list Cell) :
  forall start i,
    In i (poa_positions type_id cells start) ->
    start <= i < start + Z.of_nat (length cells).
Proof.
  induction cells as [|c rest IH]; intros start i; cbn [poa_positions length].
  - intros [].
  - destruct (carries_type_id type_id c); cbn [In].
    + intros [<- | Hin]; [lia|]. specialize (IH _ _ Hin). lia.
    + intros Hin. specialize (IH _ _ Hin). lia.
Qed.

Lemma look_loop_by_positions (type_id : list byte) (cells : list Cell) :
  Forall type_read_settled cells ->
  forall current found_index,
    current + Z.of_nat (length cells) <= SIZE_MAX ->
    look_loop type_id cells current found_index
    = match poa_positions type_id cells current with
      | [] => Ok found_index
      | [i] => if found_index =? SIZE_MAX then Ok i else Err ERROR_ENCODING
      | _ :: _ :: _ => Err ERROR_ENCODING
      end.
Proof.
  intros Hsettled.
  induction Hsettled as [|c rest Hc _ IH]; intros current found_index Hlen;
    cbn [look_loop poa_positions].
  - destruct (current <? SIZE_MAX); reflexivity.
  - cbn [length] in Hlen.
    destruct (Z.ltb_spec current SIZE_MAX) as [Hcur|]; [|lia].
    unfold carries_type_id.
    destruct Hc as [Hret | Hret]; rewrite Hret.
    + change (CKB_SUCCESS =? CKB_ITEM_MISSING) with false.
      change (CKB_SUCCESS =? CKB_SUCCESS) with true. cbn [andb]. cbv iota.
      destruct (is_poa_cell type_id (cell_type c)).
      * destruct (Z.eqb_spec found_index SIZE_MAX) as [-> | Hfound]; cbn [negb].
        -- rewrite IH by lia.
           destruct (Z.eqb_spec current SIZE_MAX); [lia|].
           destruct (poa_positions type_id rest (current + 1)) as [|i [|j l]];
             reflexivity.
        -- destruct (poa_positions type_id rest (current + 1)) as [|i [|j l]];
             reflexivity.
      * apply IH. lia.
    + change (CKB_ITEM_MISSING =? CKB_ITEM_MISSING) with true.
      change (CKB_ITEM_MISSING =? CKB_SUCCESS) with false. cbn [andb]. cbv iota.
      apply IH. lia.
Qed.

(** X3.  On a side whose type-field reads all settle (a script, or none), the
    locator answers by the number of cells that carry the type-id script:
    "not found" for none, the index of the cell for exactly one, and the
    encoding error for two or more. *)
Theorem look_for_poa_cell_by_positions (type_id : list byte)
        (cells : list Cell) :
  Forall type_read_settled cells ->
  Z.of_nat (length cells) <= SIZE_MAX ->
  look_for_poa_cell type_id cells
  = match poa_positions type_id cells 0 with
    | [] => Err CKB_INDEX_OUT_OF_BOUND
    | [i] => Ok i
    | _ :: _ :: _ => Err ERROR_ENCODING
    end.
Proof.
  intros Hsettled Hlen. unfold look_for_poa_cell.
  rewrite (look_loop_by_positions type_id cells Hsettled) by lia.
  pose proof (poa_positions_range type_id cells 0) as Hrange.
  destruct (poa_positions type_id cells 0) as [|i [|j l]].
  - reflexivity.
  - change (SIZE_MAX =? SIZE_MAX) with true. cbv iota.
    specialize (Hrange i (or_introl eq_refl)).
    destruct (Z.eqb_spec i SIZE_MAX); [lia | reflexivity].
  - reflexivity.
Qed.

Lemma look_for_poa_cell_by_positions_witness :
  look_for_poa_cell Build.data_id (tx_inputs Build.same_round_tx)
  = match poa_positions Build.data_id (tx_inputs Build.same_round_tx) 0 with
    | [] => Err CKB_INDEX_OUT_OF_BOUND
    | [i] => Ok i
    | _ :: _ :: _ => Err ERROR_ENCODING
    end.
Proof.
  apply (look_for_poa_cell_by_positions Build.data_id
           (tx_inputs Build.same_round_tx)).
  - apply Forall_cons; [left; reflexivity|].
    apply Forall_cons; [right; reflexivity|].
    apply Forall_nil.
  - vm_compute. discriminate.
Defined.

Lemma look_for_poa_cell_failure_is_end_witness :
  look_for_poa_cell Build.data_id
    ([Build.poa_cell Build.data_id (Build.lock_hash_of x01) []]
       ++ Build.unreadable_cell CKB_INVALID_DATA
       :: [Build.poa_cell Build.data_id (Build.lock_hash_of x01) []])
  = look_for_poa_cell Build.data_id
      [Build.poa_cell Build.data_id (Build.lock_hash_of x01) []].
Proof.
  apply (look_for_poa_cell_failure_is_end Build.data_id
           (Build.unreadable_cell CKB_INVALID_DATA)).
  - vm_compute. discriminate.
  - vm_compute. discriminate.
Defined.

(** ** The aggregator set, continued *)

Lemma parse_poa_setup_ok_inv (data : list byte) (setup : PoASetup) :
  parse_poa_setup data = Ok setup ->
  setup = poa_setup_of data
  /\ 12 <= Z.of_nat (length data)
  /\ byte_at data 1 <= 32
  /\ byte_at data 3 <= byte_at data 2
  /\ Z.of_nat (length data) = 12 + byte_at data 1 * byte_at data 2.
Proof.
  unfold parse_poa_setup. cbv zeta.
  cbn [identity_size aggregator_number aggregator_change_threshold poa_setup_of].
  unfold IDENTITY_SIZE. rewrite !Z.gtb_ltb.
  destruct (Z.ltb_spec (Z.of_nat (length data)) 12); [discriminate|].
  destruct (Z.ltb_spec 32 (byte_at data 1)); [discriminate|].
  destruct (Z.ltb_spec (byte_at data 2) (byte_at data 3)); [discriminate|].
  destruct (Z.eqb_spec (Z.of_nat (length data))
                       (12 + byte_at data 1 * byte_at data 2));
    cbn [negb]; [|discriminate].
  intros Hok. injection Hok as <-. repeat split; assumption.
Qed.

Lemma parse_poa_setup_ok (data : list byte) :
  12 <= Z.of_nat (length data) ->
  byte_at data 1 <= 32 ->
  byte_at data 3 <= byte_at data 2 ->
  Z.of_nat (length data) = 12 + byte_at data 1 * byte_at data 2 ->
  parse_poa_setup data = Ok (poa_setup_of data).
Proof.
  intros Hlen Hsize Hthr Heq. unfold parse_poa_setup. cbv zeta.
  cbn [identity_size aggregator_number aggregator_change_threshold poa_setup_of].
  unfold IDENTITY_SIZE. rewrite !Z.gtb_ltb.
  destruct (Z.ltb_spec (Z.of_nat (length data)) 12); [lia|].
  destruct (Z.ltb_spec 32 (byte_at data 1)); [lia|].
  destruct (Z.ltb_spec (byte_at data 2) (byte_at data 3)); [lia|].
  destruct (Z.eqb_spec (Z.of_nat (length data))
                       (12 + byte_at data 1 * byte_at data 2));
    [reflexivity | contradiction].
Qed.

(** X5.  Every aggregator index below the count addresses a full identity
    inside the decoded buffer: the [identity_size] bytes compared by the
    signing checks are the bytes of the setup cell at offset
    [12 + k * identity_size], and none lies past its end. *)
Theorem parsed_identity_in_buffer (data : list byte) (setup : PoASetup) (k : Z) :
  parse_poa_setup data = Ok setup ->
  0 <= k < aggregator_number setup ->
  firstn (Z.to_nat (identity_size setup))
         (identity_at (identities setup) (identity_size setup) k)
  = slice data (12 + Z.to_nat (k * identity_size setup))
          (Z.to_nat (identity_size setup))
  /\ length (slice data (12 + Z.to_nat (k * identity_size setup))
                   (Z.to_nat (identity_size setup)))
     = Z.to_nat (identity_size setup)
  /\ 12 + k * identity_size setup + identity_size setup
     <= Z.of_nat (length data).
Proof.
  intros Hparse Hk.
  destruct (parse_poa_setup_ok_inv data setup Hparse)
    as (-> & Hmin & Hsize & _ & Hlen).
  cbn [identity_size aggregator_number identities poa_setup_of] in *.
  pose proof (byte_at_range data 1) as Hs0.
  assert (Hspace : 12 + k * byte_at data 1 + byte_at data 1
                   <= Z.of_nat (length data)) by nia.
  unfold identity_at, slice. rewrite skipn_skipn.
  replace (Z.to_nat (k * byte_at data 1) + 12)%nat
    with (12 + Z.to_nat (k * byte_at data 1))%nat by lia.
  split; [reflexivity|]. split; [|exact Hspace].
  rewrite length_firstn, length_skipn. nia.
Qed.

Lemma parsed_identity_in_buffer_witness :
  12 + 2 * identity_size (poa_setup_of Build.three_aggregators)
  + identity_size (poa_setup_of Build.three_aggregators)
  <= Z.of_nat (length Build.three_aggregators).
Proof.
  apply (parsed_identity_in_buffer Build.three_aggregators
           (poa_setup_of Build.three_aggregators) 2).
  - vm_compute. reflexivity.
  - vm_compute. split; [discriminate | reflexivity].
Defined.

Lemma byte_val_of_Z (z : Z) : byte_val (byte_of_Z z) = z mod 256.
Proof.
  unfold byte_val, byte_of_Z.
  pose proof (Z.mod_pos_bound z 256 ltac:(lia)) as Hz.
  destruct (Byte.of_N (Z.to_N (z mod 256))) as [b|] eqn:Hb.
  - apply Byte.to_of_N in Hb. rewrite Hb. lia.
  - apply Byte.of_N_None_iff in Hb. lia.
Qed.

Lemma le_decode_encode (n : nat) :
  forall v, 0 <= v < 256 ^ Z.of_nat n -> le_decode (le_encode n v) = v.
Proof.
  induction n as [|n IH]; intros v Hv.
  - cbn in *. lia.
  - cbn [le_encode le_decode]. rewrite byte_val_of_Z.
    rewrite Nat2Z.inj_succ, Z.pow_succ_r in Hv by lia.
    rewrite IH.
    + pose proof (Z.div_mod v 256 ltac:(lia)). lia.
    + split; [apply Z.div_pos; lia|]. apply Z.div_lt_upper_bound; lia.
Qed.

Lemma le_encode_length (n : nat) : forall v, length (le_encode n v) = n.
Proof. induction n as [|n IH]; intros v; cbn [le_encode length]; auto. Qed.

(** X6.  Decoding inverts the layout: a flag, an identity size up to 32, an
    aggregator count, a threshold up to the count, two 32-bit values and
    [identity_size * aggregator_number] identity bytes, laid out as the
    setup cell has them, decode to exactly these values. *)
Theorem parse_poa_setup_of_layout (uses_seconds : bool)
        (size count threshold interval per_interval : Z) (ids : list byte) :
  0 <= size <= 32 ->
  0 <= threshold <= count ->
  count <= 255 ->
  0 <= interval < 2 ^ 32 ->
  0 <= per_interval < 2 ^ 32 ->
  Z.of_nat (length ids) = size * count ->
  exists setup,
    parse_poa_setup (Build.setup_bytes uses_seconds size count threshold
                                       interval per_interval ids) = Ok setup
    /\ interval_uses_seconds setup = uses_seconds
    /\ identity_size setup = size
    /\ aggregator_number setup = count
    /\ aggregator_change_threshold setup = threshold
    /\ subblock_intervals setup = interval
    /\ subblocks_per_interval setup = per_interval
    /\ identities setup = ids.
Proof.
  intros Hsize Hthr Hcount Hint Hper Hids.
  set (data := Build.setup_bytes uses_seconds size count threshold interval
                                 per_interval ids).
  assert (H1 : byte_at data 1 = size).
  { unfold data, Build.setup_bytes, byte_at. cbn [app nth].
    rewrite byte_val_of_Z. apply Z.mod_small. lia. }
  assert (H2 : byte_at data 2 = count).
  { unfold data, Build.setup_bytes, byte_at. cbn [app nth].
    rewrite byte_val_of_Z. apply Z.mod_small. lia. }
  assert (H3 : byte_at data 3 = threshold).
  { unfold data, Build.setup_bytes, byte_at. cbn [app nth].
    rewrite byte_val_of_Z. apply Z.mod_small. lia. }
  assert (Hlen : Z.of_nat (length data) = 12 + size * count).
  { unfold data, Build.setup_bytes. cbn [app length].
    rewrite !length_app, !le_encode_length. lia. }
  assert (Hparse : parse_poa_setup data = Ok (poa_setup_of data)).
  { apply parse_poa_setup_ok; rewrite ?H1, ?H2, ?H3, ?Hlen; nia. }
  exists (poa_setup_of data). split; [exact Hparse|].
  cbn [interval_uses_seconds identity_size aggregator_number
       aggregator_change_threshold subblock_intervals subblocks_per_interval
       identities poa_setup_of].
  split.
  { unfold data, Build.setup_bytes, byte_at. cbn [app nth].
    destruct uses_seconds; reflexivity. }
  split; [exact H1|]. split; [exact H2|]. split; [exact H3|].
  split.
  { unfold data, Build.setup_bytes, read_le, slice.
    cbn [app skipn le_encode firstn].
    change (le_decode (le_encode 4 interval) = interval).
    apply le_decode_encode. exact Hint. }
  split.
  { unfold data, Build.setup_bytes, read_le, slice.
    cbn [app skipn le_encode firstn].
    change (le_decode (le_encode 4 per_interval) = per_interval).
    apply le_decode_encode. exact Hper. }
  unfold data, Build.setup_bytes. cbn [app skipn le_encode].
  reflexivity.
Qed.

Lemma parse_poa_setup_of_layout_witness :
  exists setup,
    parse_poa_setup (Build.setup_bytes true 2 3 2 100 5
                                       [xa0; xa0; xa1; xa1; xa2; xa2]) = Ok setup
    /\ interval_uses_seconds setup = true
    /\ identity_size setup = 2
    /\ aggregator_number setup = 3
    /\ aggregator_change_threshold setup = 2
    /\ subblock_intervals setup = 100
    /\ subblocks_per_interval setup = 5
    /\ identities setup = [xa0; xa0; xa1; xa1; xa2; xa2].
Proof.
  apply (parse_poa_setup_of_layout true 2 3 2 100 5
           [xa0; xa0; xa1; xa1; xa2; xa2]); simpl; lia.
Defined.

(** ** The single-identity check, continued *)

Lemma single_loop_sound (identity : list byte) (identity_size : Z)
      (inputs : list Cell) :
  identity_size <= 32 ->
  forall current,
    single_loop identity identity_size inputs current = CKB_SUCCESS ->
    Exists (fun c => lock_hash_readable c /\ signed_by identity identity_size c)
           inputs.
Proof.
  intros Hsize. induction inputs as [|c rest IH]; intros current;
    cbn [single_loop].
  - destruct (current <? SIZE_MAX); discriminate.
  - destruct (current <? SIZE_MAX); [|discriminate].
    destruct (read_ret (cell_lock_hash c) =? CKB_INDEX_OUT_OF_BOUND);
      [discriminate|].
    destruct (Z.eqb_spec (read_ret (cell_lock_hash c)) CKB_SUCCESS)
      as [Hret | Hret]; cbn [negb]; [|intros H; contradiction].
    destruct (memcmp_eq (read_buf (cell_lock_hash c) 32) identity identity_size)
      eqn:Hcmp.
    + intros _. apply Exists_cons_hd. split; [exact Hret|].
      apply memcmp_hash_buffer; assumption.
    + intros H. apply Exists_cons_tl. exact (IH _ H).
Qed.

Lemma load_new_block_setup (tx : Transaction) (args : list byte) (dep : Z)
      (nb : NewBlock) :
  load_new_block tx args dep = Ok nb ->
  exists data, parse_poa_setup data = Ok (nb_setup nb).
Proof.
  unfold load_new_block.
  destruct (load_poa_setup (tx_cell_deps tx) dep) as [setup|] eqn:Hsetup;
    [|discriminate].
  destruct (look_for_poa_cell (skipn 32 args) (tx_inputs tx)) as [i|]; [|discriminate].
  destruct (load_poa_data (tx_inputs tx) i) as [last|]; [|discriminate].
  destruct (look_for_poa_cell (skipn 32 args) (tx_outputs tx)) as [o|]; [|discriminate].
  destruct (load_poa_data (tx_outputs tx) o) as [cur|]; [|discriminate].
  cbv zeta.
  destruct (_ >=? _); [discriminate|].
  destruct (negb _); [discriminate|].
  destruct (negb _); [discriminate|].
  intros H. injection H as <-. cbn [nb_setup].
  unfold load_poa_setup in Hsetup.
  destruct (negb _) in Hsetup; [discriminate|].
  destruct (_ >? _) in Hsetup; [discriminate|].
  eexists. exact Hsetup.
Qed.

(** X8.  A new block is accepted only with the signature of the aggregator in
    turn: some input of the transaction has a lock hash that equals, on its
    first [identity_size] bytes, the identity of the setup at the new
    state's aggregator index. *)
Theorem new_block_signed_by_aggregator_in_turn (tx : Transaction)
        (nb : NewBlock) :
  block_production tx nb ->
  main tx = CKB_SUCCESS ->
  backed_by (identities (nb_setup nb)) (identity_size (nb_setup nb))
            (tx_inputs tx) (aggregator_index (nb_current nb)).
Proof.
  intros Hbp Hmain.
  destruct (main_accepts_new_block tx nb Hbp Hmain) as [_ Hsign].
  destruct Hbp as (args & dep & _ & _ & _ & Hload).
  destruct (load_new_block_setup tx args dep nb Hload) as [data Hparse].
  pose proof (parse_poa_setup_range data _ Hparse) as (_ & _ & _ & Hsize).
  unfold backed_by. unfold validate_single_signing in Hsign.
  exact (single_loop_sound _ _ _ (proj2 Hsize) 0 Hsign).
Qed.

Lemma new_block_signed_by_aggregator_in_turn_witness :
  backed_by (identities (nb_setup Build.same_round_block))
            (identity_size (nb_setup Build.same_round_block))
            (tx_inputs Build.same_round_tx)
            (aggregator_index (nb_current Build.same_round_block)).
Proof.
  apply (new_block_signed_by_aggregator_in_turn Build.same_round_tx
           Build.same_round_block).
  - exists (Build.setup_id ++ Build.data_id), 0.
    repeat split; vm_compute; reflexivity.
  - vm_compute. reflexivity.
Defined.

(** X9.  The scan for the signer stops at the first input whose lock hash
    cannot be read: when no input before it matches, the check returns the
    code of that read ([ERROR_ENCODING] if the code is
    [CKB_INDEX_OUT_OF_BOUND]), whatever the inputs behind it are. *)
Theorem validate_single_signing_first_failure (identity : list byte)
        (identity_size : Z) (before after : list Cell) (c : Cell) :
  identity_size <= 32 ->
  Z.of_nat (length before) < SIZE_MAX ->
  Forall (fun x => lock_hash_readable x /\ ~ signed_by identity identity_size x)
         before ->
  read_ret (cell_lock_hash c) <> CKB_SUCCESS ->
  validate_single_signing identity identity_size (before ++ c :: after)
  = (if read_ret (cell_lock_hash c) =? CKB_INDEX_OUT_OF_BOUND
     then ERROR_ENCODING else read_ret (cell_lock_hash c)).
Proof.
  intros Hsize Hlen Hbefore Hret. unfold validate_single_signing.
  assert (Hgen : forall current,
             0 <= current ->
             current + Z.of_nat (length before) < SIZE_MAX ->
             single_loop identity identity_size (before ++ c :: after) current
             = (if read_ret (cell_lock_hash c) =? CKB_INDEX_OUT_OF_BOUND
                then ERROR_ENCODING else read_ret (cell_lock_hash c))).
  { induction Hbefore as [|b before [Hb Hno] _ IH]; intros current H0 Hcur;
      cbn [app single_loop length] in *.
    - destruct (Z.ltb_spec current SIZE_MAX); [|lia].
      destruct (read_ret (cell_lock_hash c) =? CKB_INDEX_OUT_OF_BOUND);
        [reflexivity|].
      destruct (Z.eqb_spec (read_ret (cell_lock_hash c)) CKB_SUCCESS);
        [contradiction | reflexivity].
    - destruct (Z.ltb_spec current SIZE_MAX); [|lia].
      unfold lock_hash_readable in Hb. rewrite Hb.
      change (CKB_SUCCESS =? CKB_INDEX_OUT_OF_BOUND) with false.
      change (negb (CKB_SUCCESS =? CKB_SUCCESS)) with false. cbv iota.
      destruct (memcmp_eq (read_buf (cell_lock_hash b) 32) identity identity_size)
        eqn:Hcmp.
      + exfalso. apply Hno. apply (memcmp_hash_buffer _ _ _ Hsize). exact Hcmp.
      + apply IH; lia. }
  apply Hgen; lia.
Qed.

Lemma validate_single_signing_first_failure_witness :
  validate_single_signing [xa0; xa0] 2
    ([Build.plain_cell (Build.lock_hash_of x01)]
       ++ {| cell_lock_hash := (CKB_INVALID_DATA, []);
             cell_type := (CKB_ITEM_MISSING, []);
             cell_data := (CKB_SUCCESS, []) |}
       :: [Build.plain_cell (Build.lock_hash_of xa0)])
  = CKB_INVALID_DATA.
Proof.
  apply (validate_single_signing_first_failure [xa0; xa0] 2
           [Build.plain_cell (Build.lock_hash_of x01)]
           [Build.plain_cell (Build.lock_hash_of xa0)]
           {| cell_lock_hash := (CKB_INVALID_DATA, []);
              cell_type := (CKB_ITEM_MISSING, []);
              cell_data := (CKB_SUCCESS, []) |}).
  - lia.
  - vm_compute. reflexivity.
  - apply Forall_cons; [|apply Forall_nil].
    split; [reflexivity|]. vm_compute. discriminate.
  - vm_compute. discriminate.
Defined.

(** X10.  A setup with identity size 0 names nobody: on the block-production
    path every transaction that passes the group, args and round checks is
    accepted as soon as the lock hash of its first input can be read, no
    matter who locks the inputs. *)
Theorem zero_identity_size_needs_no_signer (tx : Transaction) (nb : NewBlock)
        (c : Cell) (rest : list Cell) :
  block_production tx nb ->
  identity_size (nb_setup nb) = 0 ->
  (length (tx_group_inputs tx) <= 1)%nat ->
  (length (tx_group_outputs tx) <= 1)%nat ->
  (forall args, script_args (tx_script tx) = Some args -> length args = 64%nat) ->
  check_new_block nb = CKB_SUCCESS ->
  tx_inputs tx = c :: rest ->
  lock_hash_readable c ->
  main tx = CKB_SUCCESS.
Proof.
  intros Hbp Hzero Hin Hout Hargs Hcheck Hinputs Hread.
  apply (main_on_block_production tx nb Hbp).
  repeat split; try assumption.
  rewrite Hzero, Hinputs. unfold validate_single_signing. cbn [single_loop].
  change (0 <? SIZE_MAX) with true. cbv iota.
  unfold lock_hash_readable in Hread. rewrite Hread. reflexivity.
Qed.

Lemma zero_identity_size_needs_no_signer_witness :
  main Samples.nameless_tx = CKB_SUCCESS.
Proof.
  apply (zero_identity_size_needs_no_signer Samples.nameless_tx
           Samples.nameless_block
           (Build.poa_cell Build.data_id (Build.lock_hash_of x01)
                           (Build.subblock_bytes (Build.info 1000 1000 0 0)))
           [Build.plain_cell (Build.lock_hash_of x77)]).
  - exists (Build.setup_id ++ Build.data_id), 0.
    repeat split; vm_compute; reflexivity.
  - vm_compute. reflexivity.
  - simpl. lia.
  - simpl. lia.
  - intros args Hargs. injection Hargs as <-. reflexivity.
  - vm_compute. reflexivity.
  - reflexivity.
  - reflexivity.
Defined.

(** ** The threshold check, continued *)

(** *** Error codes are never the success code *)

Lemma look_loop_error (type_id : list byte) (cells : list Cell) :
  forall current found_index code,
    look_loop type_id cells current found_index = Err code ->
    code = ERROR_ENCODING.
Proof.
  induction cells as [|c rest IH]; intros current found_index code;
    cbn [look_loop].
  - destruct (current <? SIZE_MAX); discriminate.
  - destruct (current <? SIZE_MAX); [|discriminate].
    destruct (read_ret (cell_type c) =? CKB_ITEM_MISSING); [apply IH|].
    destruct (read_ret (cell_type c) =? CKB_SUCCESS); [|discriminate].
    destruct (is_poa_cell type_id (cell_type c)); [|apply IH].
    destruct (negb (found_index =? SIZE_MAX)); [|apply IH].
    intros H. injection H as <-. reflexivity.
Qed.

Lemma look_for_poa_cell_codes (type_id : list byte) (cells : list Cell) :
  (exists index, look_for_poa_cell type_id cells = Ok index)
  \/ look_for_poa_cell type_id cells = Err CKB_INDEX_OUT_OF_BOUND
  \/ look_for_poa_cell type_id cells = Err ERROR_ENCODING.
Proof.
  unfold look_for_poa_cell.
  destruct (look_loop type_id cells 0 SIZE_MAX) as [f | code] eqn:Hloop.
  - destruct (f =? SIZE_MAX); [right; left; reflexivity | left; eexists; reflexivity].
  - right. right. rewrite (look_loop_error _ _ _ _ _ Hloop). reflexivity.
Qed.

Lemma look_for_poa_cell_error (type_id : list byte) (cells : list Cell)
      (code : Z) :
  look_for_poa_cell type_id cells = Err code -> code <> CKB_SUCCESS.
Proof.
  intros H.
  destruct (look_for_poa_cell_codes type_id cells) as [[i Hi] | [Hc | Hc]];
    rewrite H in *; [discriminate | |]; injection Hc as ->; discriminate.
Qed.

Lemma parse_poa_setup_error (data : list byte) (code : Z) :
  parse_poa_setup data = Err code -> code = ERROR_ENCODING.
Proof.
  unfold parse_poa_setup. cbv zeta.
  repeat match goal with
         | |- (if ?b then _ else _) = _ -> _ => destruct b
         end;
    intros H; try discriminate; injection H as <-; reflexivity.
Qed.

Lemma load_poa_setup_error (side : list Cell) (index code : Z) :
  load_poa_setup side index = Err code -> code <> CKB_SUCCESS.
Proof.
  unfold load_poa_setup. cbv zeta.
  destruct (Z.eqb_spec (read_ret (ckb_load_cell_data side index)) CKB_SUCCESS)
    as [|Hret]; cbn [negb].
  - destruct (_ >? _).
    + intros H. injection H as <-. discriminate.
    + intros H. rewrite (parse_poa_setup_error _ _ H). discriminate.
  - intros H. injection H as <-. exact Hret.
Qed.

Lemma load_poa_data_error (side : list Cell) (index code : Z) :
  load_poa_data side index = Err code -> code <> CKB_SUCCESS.
Proof.
  unfold load_poa_data. cbv zeta.
  destruct (Z.eqb_spec (read_ret (ckb_load_cell_data side index)) CKB_SUCCESS)
    as [|Hret]; cbn [negb].
  - destruct (negb _); [|discriminate].
    intros H. injection H as <-. discriminate.
  - intros H. injection H as <-. exact Hret.
Qed.

Lemma load_new_block_error (tx : Transaction) (args : list byte) (dep code : Z) :
  load_new_block tx args dep = Err code -> code <> CKB_SUCCESS.
Proof.
  unfold load_new_block.
  destruct (load_poa_setup (tx_cell_deps tx) dep) as [setup | e] eqn:H1.
  2:{ intros H. injection H as <-. exact (load_poa_setup_error _ _ _ H1). }
  destruct (look_for_poa_cell (skipn 32 args) (tx_inputs tx)) as [i | e] eqn:H2.
  2:{ intros H. injection H as <-. exact (look_for_poa_cell_error _ _ _ H2). }
  destruct (load_poa_data (tx_inputs tx) i) as [last | e] eqn:H3.
  2:{ intros H. injection H as <-. exact (load_poa_data_error _ _ _ H3). }
  destruct (look_for_poa_cell (skipn 32 args) (tx_outputs tx)) as [o | e] eqn:H4.
  2:{ intros H. injection H as <-. exact (look_for_poa_cell_error _ _ _ H4). }
  destruct (load_poa_data (tx_outputs tx) o) as [cur | e] eqn:H5.
  2:{ intros H. injection H as <-. exact (load_poa_data_error _ _ _ H5). }
  cbv zeta.
  destruct (_ >=? _); [intros H; injection H as <-; discriminate|].
  destruct (Z.eqb_spec (read_ret (ckb_load_group_since tx)) CKB_SUCCESS)
    as [|Hret]; cbn [negb].
  - destruct (negb _); [|discriminate].
    intros H. injection H as <-. discriminate.
  - intros H. injection H as <-. exact Hret.
Qed.

(** X11.  When [main] accepts on its consensus path, the output side holds
    exactly one located setup cell and its data decodes, and the threshold
    check passed on the identities of the old setup.  The content of the
    new setup is not looked at further.  With at most 32 old aggregators,
    the inputs are locked by [aggregator_change_threshold] different
    identities of the old setup. *)
Theorem setup_change_needs_old_threshold (tx : Transaction)
        (old_setup : PoASetup) :
  authority_change tx old_setup ->
  main tx = CKB_SUCCESS ->
  (exists args output_index new_setup,
      script_args (tx_script tx) = Some args
      /\ look_for_poa_cell args (tx_outputs tx) = Ok output_index
      /\ load_poa_setup (tx_outputs tx) output_index = Ok new_setup)
  /\ validate_consensus_signing
       (identities old_setup) (identity_size old_setup)
       (aggregator_number old_setup) (aggregator_change_threshold old_setup)
       (tx_inputs tx) = CKB_SUCCESS
  /\ (aggregator_number old_setup <= 32 ->
      exists signers : list Z,
        NoDup signers
        /\ Z.of_nat (length signers) = aggregator_change_threshold old_setup
        /\ Forall (fun k => 0 <= k < aggregator_number old_setup
                            /\ backed_by (identities old_setup)
                                         (identity_size old_setup)
                                         (tx_inputs tx) k) signers).
Proof.
  intros (args & i & Hret & Hargs & Hdep & Hin & Hold) Hmain.
  unfold main in Hmain.
  destruct (negb (ckb_load_cell_probe (tx_group_inputs tx) 1
                  =? CKB_INDEX_OUT_OF_BOUND)); [discriminate|].
  destruct (negb (ckb_load_cell_probe (tx_group_outputs tx) 1
                  =? CKB_INDEX_OUT_OF_BOUND)); [discriminate|].
  rewrite Hret, Hargs in Hmain. cbn [negb Z.eqb CKB_SUCCESS] in Hmain.
  destruct (negb (Z.of_nat (length args) =? 64)); [discriminate|].
  rewrite Hdep in Hmain.
  change (negb (CKB_INDEX_OUT_OF_BOUND =? CKB_INDEX_OUT_OF_BOUND)) with false
    in Hmain. cbv iota in Hmain.
  unfold main_consensus in Hmain. rewrite Hin, Hold in Hmain.
  destruct (look_for_poa_cell args (tx_outputs tx)) as [o|] eqn:Hout;
    [|exfalso].
  2:{ apply (look_for_poa_cell_error _ _ _ Hout). exact Hmain. }
  destruct (load_poa_setup (tx_outputs tx) o) as [new_setup|] eqn:Hnew;
    [|exfalso].
  2:{ apply (load_poa_setup_error _ _ _ Hnew). exact Hmain. }
  split; [exists args, o, new_setup; repeat split; assumption|].
  split; [exact Hmain|].
  intros Hcount.
  assert (Hparse : exists data, parse_poa_setup data = Ok old_setup).
  { unfold load_poa_setup in Hold.
    destruct (negb _) in Hold; [discriminate|].
    destruct (_ >? _) in Hold; [discriminate|].
    eexists. exact Hold. }
  destruct Hparse as [data Hparse].
  pose proof (parse_poa_setup_range data _ Hparse) as (Hn & _ & _ & Hsize).
  assert (Hc : 0 <= aggregator_number old_setup <= 32) by lia.
  exact (consensus_accepts_distinct_signers _ _ _ Hc (proj2 Hsize) _ _ Hmain).
Qed.

Lemma setup_change_needs_old_threshold_witness :
  validate_consensus_signing
    (identities (poa_setup_of Build.three_aggregators))
    (identity_size (poa_setup_of Build.three_aggregators))
    (aggregator_number (poa_setup_of Build.three_aggregators))
    (aggregator_change_threshold (poa_setup_of Build.three_aggregators))
    (tx_inputs Samples.change_tx) = CKB_SUCCESS.
Proof.
  apply (setup_change_needs_old_threshold Samples.change_tx
           (poa_setup_of Build.three_aggregators)).
  - exists (Build.setup_id ++ Build.data_id), 0.
    repeat split; vm_compute; reflexivity.
  - vm_compute. reflexivity.
Defined.

(** ** The two ways [main] accepts *)

(** X13.  [main] returns the success code in two ways only: on the
    block-production path, with the setup cell among the dependencies and
    every load of that path done, or on the consensus path, with no setup
    cell among the dependencies and the old setup read from an input.  No
    failed load, failed decoding or failed lookup ends in success, and the
    two ways exclude each other. *)
Theorem main_accepts_two_ways (tx : Transaction) :
  main tx = CKB_SUCCESS ->
  ((exists nb, block_production tx nb)
   \/ (exists old_setup, authority_change tx old_setup))
  /\ ~ ((exists nb, block_production tx nb)
        /\ (exists old_setup, authority_change tx old_setup)).
Proof.
  intros Hmain. split.
  - unfold main in Hmain.
    destruct (negb (ckb_load_cell_probe (tx_group_inputs tx) 1
                    =? CKB_INDEX_OUT_OF_BOUND)); [discriminate|].
    destruct (negb (ckb_load_cell_probe (tx_group_outputs tx) 1
                    =? CKB_INDEX_OUT_OF_BOUND)); [discriminate|].
    destruct (Z.eqb_spec (script_load_ret (tx_script tx)) CKB_SUCCESS)
      as [Hret | Hret]; cbn [negb] in Hmain; [|contradiction].
    destruct (script_args (tx_script tx)) as [args|] eqn:Hargs; [|discriminate].
    destruct (negb (Z.of_nat (length args) =? 64)); [discriminate|].
    destruct (look_for_poa_cell args (tx_cell_deps tx)) as [dep | code] eqn:Hdep.
    + left. unfold main_new_block in Hmain.
      destruct (load_new_block tx args dep) as [nb | e] eqn:Hload.
      * exists nb, args, dep. repeat split; assumption.
      * exfalso. exact (load_new_block_error _ _ _ _ Hload Hmain).
    + right.
      destruct (Z.eqb_spec code CKB_INDEX_OUT_OF_BOUND) as [-> | Hcode];
        cbn [negb] in Hmain.
      2:{ exfalso. exact (look_for_poa_cell_error _ _ _ Hdep Hmain). }
      unfold main_consensus in Hmain.
      destruct (look_for_poa_cell args (tx_inputs tx)) as [i | e] eqn:Hin.
      2:{ exfalso. exact (look_for_poa_cell_error _ _ _ Hin Hmain). }
      destruct (load_poa_setup (tx_inputs tx) i) as [old_setup | e] eqn:Hold.
      2:{ exfalso. exact (load_poa_setup_error _ _ _ Hold Hmain). }
      exists old_setup, args, i. repeat split; assumption.
  - intros [[nb (args & dep & _ & Hargs & Hdep & _)]
              [old (args' & i & _ & Hargs' & Hdep' & _)]].
    rewrite Hargs in Hargs'. injection Hargs' as <-.
    rewrite Hdep in Hdep'. discriminate.
Qed.

Lemma main_accepts_two_ways_witness :
  (exists nb, block_production Build.rollover_tx nb)
  \/ (exists old_setup, authority_change Build.rollover_tx old_setup).
Proof.
  apply (main_accepts_two_ways Build.rollover_tx).
  vm_compute. reflexivity.
Defined.

(** ** The threshold check with distinct identities *)

Lemma find_identity_skipped (mask : list Z) (hash identity_buffer : list byte)
      (identity_size : Z) (n : nat) :
  forall start j,
    start <= j < find_identity mask hash identity_buffer identity_size n start ->
    negb (mask_test mask j)
    && memcmp_eq hash (identity_at identity_buffer identity_size j) identity_size
    = false.
Proof.
  induction n as [|n IH]; intros start j; cbn [find_identity].
  - lia.
  - destruct (negb (mask_test mask start)
              && memcmp_eq hash (identity_at identity_buffer identity_size start)
                           identity_size) eqn:Hhit.
    + lia.
    + intros Hj. destruct (Z.eq_dec j start) as [-> | Hne]; [exact Hhit|].
      apply (IH (start + 1)). lia.
Qed.

Section DistinctIdentities.

Variable identity_buffer : list byte.
Variables identity_size identity_count threshold : Z.
Hypothesis count_within_32 : 0 <= identity_count <= 32.
Hypothesis size_within_hash : identity_size <= 32.
Hypothesis distinct : identities_distinct identity_buffer identity_size identity_count.

(** When the loop ends without success, the log holds fewer than
    [threshold] identities, and among them every identity that one of the
    inputs is locked by. *)
Lemma consensus_trace_complete :
  forall inputs current mask found credited,
    Forall lock_hash_readable inputs ->
    current + Z.of_nat (length inputs) <= SIZE_MAX ->
    mask <> [] ->
    mask_tracks mask credited ->
    NoDup credited ->
    Forall (index_below identity_count) credited ->
    found = Z.of_nat (length credited) ->
    found < threshold ->
    let res := consensus_trace identity_buffer identity_size identity_count
                               threshold inputs current mask found credited in
    fst res = CKB_SUCCESS
    \/ (Z.of_nat (length (snd res)) < threshold
        /\ incl credited (snd res)
        /\ forall k, 0 <= k < identity_count ->
                     backed_by identity_buffer identity_size inputs k ->
                     In k (snd res)).
Proof.
  induction inputs as [|c rest IH];
    intros current mask found credited Hread Hlen Hmask Htr Hnd Hrange Hfound Hbelow;
    cbn [consensus_trace].
  - right. destruct (current <? SIZE_MAX); cbn [fst snd];
      (split; [lia|]; split; [apply incl_refl|];
       intros k _ Hb; unfold backed_by in Hb; inversion Hb).
  - cbn [length] in Hlen.
    destruct (Z.ltb_spec current SIZE_MAX); [|lia].
    pose proof (Forall_inv Hread) as Hc.
    pose proof (Forall_inv_tail Hread) as Hrest.
    unfold lock_hash_readable in Hc. rewrite Hc.
    change (CKB_SUCCESS =? CKB_INDEX_OUT_OF_BOUND) with false.
    change (negb (CKB_SUCCESS =? CKB_SUCCESS)) with false. cbv iota zeta.
    pose proof (find_identity_spec mask (read_buf (cell_lock_hash c) 32)
                  identity_buffer identity_size (Z.to_nat identity_count) 0)
      as Hfind.
    pose proof (find_identity_skipped mask (read_buf (cell_lock_hash c) 32)
                  identity_buffer identity_size (Z.to_nat identity_count) 0)
      as Hskip.
    cbv zeta in Hfind.
    set (k0 := find_identity mask (read_buf (cell_lock_hash c) 32)
                 identity_buffer identity_size (Z.to_nat identity_count) 0) in *.
    rewrite Z2Nat.id in Hfind by lia. destruct Hfind as [Hk0 Hhit].
    (* an identity that [c] is locked by is [k0] or is already credited *)
    assert (Hhead : forall k, 0 <= k < identity_count ->
               signed_by (identity_at identity_buffer identity_size k)
                         identity_size c ->
               In k credited \/ (k0 < identity_count /\ k = k0)).
    { intros k Hk Hsigned.
      apply (memcmp_hash_buffer _ _ _ size_within_hash) in Hsigned.
      destruct (Z.ltb_spec k k0) as [Hlt | Hge].
      - specialize (Hskip k ltac:(lia)). rewrite Hsigned, andb_true_r in Hskip.
        apply negb_false_iff in Hskip. left. apply (Htr k ltac:(lia)). exact Hskip.
      - right. assert (Hk0lt : k0 < identity_count) by lia.
        split; [exact Hk0lt|].
        destruct (Hhit Hk0lt) as [_ Hmatch].
        apply (memcmp_hash_buffer _ _ _ size_within_hash) in Hsigned, Hmatch.
        apply distinct; [lia | lia | congruence]. }
    assert (Hsplit : forall (res : list Z) k,
               (forall j, 0 <= j < identity_count ->
                          backed_by identity_buffer identity_size rest j ->
                          In j res) ->
               (forall j, 0 <= j < identity_count ->
                          signed_by (identity_at identity_buffer identity_size j)
                                    identity_size c -> In j res) ->
               0 <= k < identity_count ->
               backed_by identity_buffer identity_size (c :: rest) k ->
               In k res).
    { intros res k Hr Hh Hk Hb. unfold backed_by in Hb.
      inversion Hb as [? ? [_ Hs] | ? ? Htl]; subst.
      - apply Hh; assumption.
      - apply Hr; assumption. }
    destruct (Z.ltb_spec k0 identity_count) as [Hlt | Hge].
    + destruct (Hhit Hlt) as [Hfree Hmatch].
      assert (Hnew : ~ In k0 credited).
      { intros Hin. apply (Htr k0 ltac:(lia)) in Hin. congruence. }
      assert (Hnd' : NoDup (credited ++ [k0])) by (apply NoDup_snoc; assumption).
      assert (Hrange' : Forall (index_below identity_count) (credited ++ [k0])).
      { apply Forall_app. split; [exact Hrange|].
        constructor; [unfold index_below; lia | constructor]. }
      assert (Hlen' : wrap8 (found + 1) = Z.of_nat (length (credited ++ [k0]))).
      { pose proof (bounded_NoDup_length identity_count _ ltac:(lia) Hnd' Hrange')
          as Hle.
        rewrite length_app in Hle |- *. cbn [length] in Hle |- *.
        unfold wrap8. rewrite Z.mod_small; lia. }
      destruct (Z.eqb_spec (wrap8 (found + 1)) threshold) as [Hthr | Hthr];
        [left; reflexivity|].
      assert (Hbelow' : wrap8 (found + 1) < threshold).
      { rewrite Hlen', length_app in *. cbn [length] in *. lia. }
      assert (Hk32 : 0 <= k0 < 32) by lia.
      assert (Hnext : current + 1 + Z.of_nat (length rest) <= SIZE_MAX) by lia.
      destruct (IH (current + 1) (mask_mark mask k0) (wrap8 (found + 1))
                   (credited ++ [k0]) Hrest Hnext
                   (mask_mark_nonempty _ _ Hmask)
                   (mask_tracks_mark _ _ _ Hmask Hk32 Htr)
                   Hnd' Hrange' Hlen' Hbelow')
        as [Hacc | (Hfew & Hincl & Hall)]; [left; exact Hacc|].
      right. split; [exact Hfew|]. split.
      * intros x Hx. apply Hincl. apply in_or_app. left. exact Hx.
      * intros k Hk Hb. apply (Hsplit _ k Hall); try assumption.
        intros j Hj Hs. apply Hincl. apply in_or_app.
        destruct (Hhead j Hj Hs) as [Hin | [_ ->]];
          [left; exact Hin | right; left; reflexivity].
    + assert (Hnext : current + 1 + Z.of_nat (length rest) <= SIZE_MAX) by lia.
      destruct (IH (current + 1) mask found credited Hrest Hnext
                   Hmask Htr Hnd Hrange Hfound Hbelow)
        as [Hacc | (Hfew & Hincl & Hall)]; [left; exact Hacc|].
      right. split; [exact Hfew|]. split; [exact Hincl|].
      intros k Hk Hb. apply (Hsplit _ k Hall); try assumption.
      intros j Hj Hs. apply Hincl.
      destruct (Hhead j Hj Hs) as [Hin | [Hlt _]]; [exact Hin | lia].
Qed.

(** Enough different signers make the check succeed. *)
Lemma consensus_accepts_of_signers (inputs : list Cell) (signers : list Z) :
  1 <= threshold ->
  Forall lock_hash_readable inputs ->
  Z.of_nat (length inputs) <= SIZE_MAX ->
  NoDup signers ->
  Z.of_nat (length signers) = threshold ->
  Forall (fun k => 0 <= k < identity_count
                   /\ backed_by identity_buffer identity_size inputs k) signers ->
  validate_consensus_signing identity_buffer identity_size identity_count
                             threshold inputs = CKB_SUCCESS.
Proof.
  intros Hthr Hread Hlen Hnd Hcount Hall.
  rewrite <- consensus_credits_result. unfold consensus_credits.
  assert (Hlen0 : 0 + Z.of_nat (length inputs) <= SIZE_MAX) by lia.
  assert (Hmask : [0; 0; 0; 0] <> @nil Z) by discriminate.
  assert (Htr : mask_tracks [0; 0; 0; 0] []).
  { intros k Hk. rewrite mask_test_first_word by lia.
    rewrite Z.testbit_0_l. split; [discriminate | intros []]. }
  assert (Hbelow : 0 < threshold) by lia.
  destruct (consensus_trace_complete inputs 0 [0; 0; 0; 0] 0 [] Hread Hlen0
              Hmask Htr (NoDup_nil Z) (Forall_nil _) eq_refl Hbelow)
    as [Hacc | (Hfew & _ & Hin)]; [exact Hacc|].
  exfalso.
  assert (Hincl : incl signers
            (snd (consensus_trace identity_buffer identity_size
                    identity_count threshold inputs 0 [0; 0; 0; 0] 0 []))).
  { intros k Hk. rewrite Forall_forall in Hall.
    destruct (Hall k Hk) as [Hr Hb]. apply Hin; assumption. }
  pose proof (NoDup_incl_length Hnd Hincl). lia.
Qed.

End DistinctIdentities.

(** X14.  With at most 32 identities, all different, and inputs whose lock
    hashes can all be read, a threshold of at least 1 is met exactly when
    [threshold] different identities of the setup each lock some input. *)
Theorem consensus_accepts_iff (identity_buffer : list byte)
        (identity_size identity_count threshold : Z) (inputs : list Cell) :
  0 <= identity_count <= 32 ->
  identity_size <= 32 ->
  identities_distinct identity_buffer identity_size identity_count ->
  1 <= threshold ->
  Forall lock_hash_readable inputs ->
  Z.of_nat (length inputs) <= SIZE_MAX ->
  validate_consensus_signing identity_buffer identity_size identity_count
                             threshold inputs = CKB_SUCCESS
  <-> exists signers : list Z,
      NoDup signers
      /\ Z.of_nat (length signers) = threshold
      /\ Forall (fun k => 0 <= k < identity_count
                          /\ backed_by identity_buffer identity_size inputs k)
                signers.
Proof.
  intros Hcount Hsize Hdistinct Hthr Hread Hlen. split.
  - apply consensus_accepts_distinct_signers; assumption.
  - intros (signers & Hnd & Hlength & Hall).
    apply (consensus_accepts_of_signers identity_buffer identity_size
             identity_count threshold Hcount Hsize Hdistinct inputs signers);
      assumption.
Qed.

Lemma three_identities_distinct :
  identities_distinct Samples.three_identities 2 3.
Proof.
  intros j k Hj Hk.
  assert (Hj' : j = 0 \/ j = 1 \/ j = 2) by lia.
  assert (Hk' : k = 0 \/ k = 1 \/ k = 2) by lia.
  destruct Hj' as [-> | [-> | ->]]; destruct Hk' as [-> | [-> | ->]];
    vm_compute; intros H; try reflexivity; discriminate H.
Defined.

Lemma consensus_accepts_iff_witness :
  validate_consensus_signing Samples.three_identities 2 3 2 Samples.signers_0_2
  = CKB_SUCCESS
  <-> exists signers : list Z,
      NoDup signers
      /\ Z.of_nat (length signers) = 2
      /\ Forall (fun k => 0 <= k < 3
                          /\ backed_by Samples.three_identities 2
                                       Samples.signers_0_2 k)
                signers.
Proof.
  apply (consensus_accepts_iff Samples.three_identities 2 3 2
           Samples.signers_0_2).
  - lia.
  - lia.
  - exact three_identities_distinct.
  - lia.
  - apply Forall_cons; [reflexivity|].
    apply Forall_cons; [reflexivity | apply Forall_nil].
  - vm_compute. discriminate.
Defined.

(** X15.  Under the same conditions the order of the inputs does not matter:
    the check gives the same verdict on every rearrangement of them. *)
Theorem consensus_order_irrelevant (identity_buffer : list byte)
        (identity_size identity_count threshold : Z)
        (inputs inputs' : list Cell) :
  0 <= identity_count <= 32 ->
  identity_size <= 32 ->
  identities_distinct identity_buffer identity_size identity_count ->
  1 <= threshold ->
  Forall lock_hash_readable inputs ->
  Z.of_nat (length inputs) <= SIZE_MAX ->
  Permutation inputs inputs' ->
  validate_consensus_signing identity_buffer identity_size identity_count
                             threshold inputs = CKB_SUCCESS
  <-> validate_consensus_signing identity_buffer identity_size identity_count
                                 threshold inputs' = CKB_SUCCESS.
Proof.
  intros Hcount Hsize Hdistinct Hthr Hread Hlen Hperm.
  assert (Hmove : forall a b : list Cell,
             Permutation a b ->
             Forall lock_hash_readable b ->
             Z.of_nat (length b) <= SIZE_MAX ->
             validate_consensus_signing identity_buffer identity_size
                                        identity_count threshold a = CKB_SUCCESS ->
             validate_consensus_signing identity_buffer identity_size
                                        identity_count threshold b = CKB_SUCCESS).
  { intros a b Hab Hb Hlb Hacc.
    destruct (consensus_accepts_distinct_signers identity_buffer identity_size
                identity_count Hcount Hsize threshold a Hacc)
      as (signers & Hnd & Hlength & Hall).
    apply (consensus_accepts_of_signers identity_buffer identity_size
             identity_count threshold Hcount Hsize Hdistinct b signers);
      try assumption.
    rewrite Forall_forall in *. intros k Hk.
    destruct (Hall k Hk) as [Hr Hback]. split; [exact Hr|].
    unfold backed_by in *. rewrite <- Hab. exact Hback. }
  split.
  - apply (Hmove inputs inputs' Hperm).
    + rewrite <- Hperm. exact Hread.
    + rewrite <- (Permutation_length Hperm). exact Hlen.
  - apply (Hmove inputs' inputs (Permutation_sym Hperm)); assumption.
Qed.

Lemma consensus_order_irrelevant_witness :
  validate_consensus_signing Samples.three_identities 2 3 2 Samples.signers_0_2
  = CKB_SUCCESS
  <-> validate_consensus_signing Samples.three_identities 2 3 2
                                 Samples.signers_2_0 = CKB_SUCCESS.
Proof.
  apply (consensus_order_irrelevant Samples.three_identities 2 3 2
           Samples.signers_0_2 Samples.signers_2_0).
  - lia.
  - lia.
  - exact three_identities_distinct.
  - lia.
  - apply Forall_cons; [reflexivity|].
    apply Forall_cons; [reflexivity | apply Forall_nil].
  - vm_compute. discriminate.
  - apply perm_swap.
Defined.

(** ** The round checks, continued *)

(** X18.  The number of steps is never 0 and never more than the number of
    aggregators, whatever the two indices are, also for a last index that
    is out of range: a rollover always waits at least one interval and at
    most a full cycle. *)
Theorem rollover_steps_bounds (current n last : Z) :
  0 < n ->
  1 <= rollover_steps current n last <= n.
Proof.
  intros Hn. rewrite rollover_steps_unfold.
  pose proof (Z.mod_pos_bound (wrap64 (current + n - last)) n Hn) as Hb.
  destruct (Z.eqb_spec (wrap64 (current + n - last) mod n) 0); lia.
Qed.

Lemma rollover_steps_bounds_witness :
  1 <= rollover_steps 1 3 7 <= 3.
Proof. apply (rollover_steps_bounds 1 3 7). lia. Defined.

Lemma rollover_steps_in_range_witness :
  1 <= rollover_steps 0 3 2 <= 3
  /\ (rollover_steps 0 3 2 - (0 - 2)) mod 3 = 0.
Proof. apply (rollover_steps_in_range 0 3 2); lia. Defined.

Lemma check_new_block_codes (nb : NewBlock) :
  check_new_block nb = CKB_SUCCESS \/ check_new_block nb = ERROR_ENCODING.
Proof.
  unfold check_new_block. cbv zeta.
  repeat match goal with
         | |- context [if ?b then _ else _] => destruct b
         end; auto.
Qed.

(** ** The generator against the script *)

Lemma wrap64_sum_small (a b : Z) :
  0 <= a -> 0 <= b -> a + b < 2 ^ 64 -> wrap64 (wrap64 a + b) = a + b.
Proof.
  intros Ha Hb Hab. rewrite (wrap64_small a) by lia. apply wrap64_small. lia.
Qed.

(** X24.  When [shouldIssueNewBlock] answers [Yes] to an aggregator other than
    the one of the last round, the round state that
    [fixTransactionSkeleton] writes passes the round checks of the script,
    given a timestamp [since] that carries the new subblock time. *)
Theorem generator_yes_passes_round_checks (medianTime since : Z)
        (q : Generator.PoAInfos) :
  let setup := Generator.poaSetup q in
  let last := Generator.poaData q in
  let n := aggregator_number setup in
  Generator.identities_length q = n ->
  n < 256 ->
  0 <= Generator.aggregatorIndex q < n ->
  0 <= aggregator_index last < n ->
  Generator.aggregatorIndex q <> aggregator_index last ->
  0 <= round_initial_subtime last ->
  0 <= subblock_intervals setup ->
  round_initial_subtime last + n * subblock_intervals setup < 2 ^ 64 ->
  interval_uses_seconds setup = true ->
  Z.shiftr since 56 = 64 ->
  since_value since = medianTime ->
  Generator.shouldIssueNewBlock medianTime q = Generator.Yes ->
  check_new_block (Generator.built_block medianTime q since) = CKB_SUCCESS.
Proof.
  cbv zeta. intros Hlen Hbyte Hagg Hlast Hother Hrit Hint Hsum Hsec Hmode Hval Hyes.
  unfold Generator.shouldIssueNewBlock in Hyes.
  destruct (Generator.in_current_round medianTime q) eqn:Hround; [discriminate|].
  destruct (Z.geb_spec medianTime
              (round_initial_subtime (Generator.poaData q)
               + subblock_intervals (Generator.poaSetup q) * Generator.steps q))
    as [Hwait|]; [|discriminate].
  remember (aggregator_number (Generator.poaSetup q)) as n eqn:Hn.
  remember (Generator.aggregatorIndex q + n
            - aggregator_index (Generator.poaData q)) as d eqn:Hdd.
  assert (Hd : 0 < d < 2 * n) by lia.
  assert (Hsteps : Generator.steps q = d mod n).
  { unfold Generator.steps. rewrite Hlen, <- Hdd. apply Z.rem_mod_nonneg; lia. }
  assert (Hnz : d mod n <> 0).
  { intros H0. apply Z.mod_divide in H0; [|lia]. destruct H0 as [m Hm].
    assert (m = 1) by nia. lia. }
  pose proof (Z.mod_pos_bound d n ltac:(lia)) as Hmod.
  assert (Hroll : rollover_steps (Generator.aggregatorIndex q) n
                                 (aggregator_index (Generator.poaData q))
                  = d mod n).
  { rewrite rollover_steps_unfold, <- Hdd. rewrite wrap64_small by lia.
    destruct (Z.eqb_spec (d mod n) 0); [contradiction | reflexivity]. }
  apply check_new_block_complete.
  unfold Generator.built_block, Generator.newPoAData. rewrite Hround.
  cbn [nb_setup nb_last nb_current nb_since round_initial_subtime
       subblock_subtime subblock_index aggregator_index].
  rewrite Hsec, Hval, <- Hn, Hroll.
  rewrite Hsteps in Hwait.
  assert (Hprod : subblock_intervals (Generator.poaSetup q) * 1
                  <= subblock_intervals (Generator.poaSetup q) * (d mod n)
                  <= subblock_intervals (Generator.poaSetup q) * n) by nia.
  split; [exact Hmode|]. split; [reflexivity|]. right.
  rewrite wrap64_small by lia.
  split; [lia|]. split; [reflexivity|]. split; [reflexivity|].
  rewrite wrap64_sum_small by nia. lia.
Qed.

Lemma generator_yes_passes_round_checks_witness :
  check_new_block
    (Generator.built_block 1105 (Samples.infos_of (Build.info 1000 1000 0 0) 1)
                           (Build.since_timestamp 1105))
  = CKB_SUCCESS.
Proof.
  apply (generator_yes_passes_round_checks 1105 (Build.since_timestamp 1105)
           (Samples.infos_of (Build.info 1000 1000 0 0) 1));
    vm_compute; try reflexivity; try discriminate;
    try (split; [discriminate | reflexivity]).
Defined.

(** X25.  For the aggregator of the last round the two disagree: once its
    interval is over [shouldIssueNewBlock] answers [Yes] (its steps are 0),
    but until a full cycle of intervals has passed the round state that
    [fixTransactionSkeleton] writes fails the round checks of the script
    (whose steps are the aggregator count). *)
Theorem generator_yes_too_early_for_same_aggregator (medianTime since : Z)
        (q : Generator.PoAInfos) :
  let setup := Generator.poaSetup q in
  let last := Generator.poaData q in
  let n := aggregator_number setup in
  Generator.identities_length q = n ->
  n < 256 ->
  0 <= aggregator_index last < n ->
  Generator.aggregatorIndex q = aggregator_index last ->
  0 <= round_initial_subtime last ->
  0 <= subblock_intervals setup ->
  round_initial_subtime last + n * subblock_intervals setup < 2 ^ 64 ->
  interval_uses_seconds setup = true ->
  Z.shiftr since 56 = 64 ->
  since_value since = medianTime ->
  round_initial_subtime last + subblock_intervals setup <= medianTime ->
  medianTime < round_initial_subtime last + n * subblock_intervals setup ->
  Generator.shouldIssueNewBlock medianTime q = Generator.Yes
  /\ check_new_block (Generator.built_block medianTime q since) = ERROR_ENCODING.
Proof.
  cbv zeta. intros Hlen Hbyte Hlast Hsame Hrit Hint Hsum Hsec Hmode Hval Hover Hearly.
  remember (aggregator_number (Generator.poaSetup q)) as n eqn:Hn.
  assert (Hround : Generator.in_current_round medianTime q = false).
  { unfold Generator.in_current_round.
    destruct (Z.ltb_spec medianTime
                (round_initial_subtime (Generator.poaData q)
                 + subblock_intervals (Generator.poaSetup q))); [lia|].
    reflexivity. }
  assert (Hsteps : Generator.steps q = 0).
  { unfold Generator.steps. rewrite Hlen, Hsame.
    replace (aggregator_index (Generator.poaData q) + n
             - aggregator_index (Generator.poaData q)) with n by lia.
    apply Z.rem_same. lia. }
  split.
  - unfold Generator.shouldIssueNewBlock. rewrite Hround, Hsteps, Z.mul_0_r.
    destruct (Z.geb_spec medianTime
                (round_initial_subtime (Generator.poaData q) + 0)); [reflexivity|].
    lia.
  - destruct (check_new_block_codes (Generator.built_block medianTime q since))
      as [Hacc | Hrej]; [|exact Hrej].
    exfalso.
    destruct (check_new_block_accepts _ Hacc) as (_ & _ & _ & Hnext).
    unfold Generator.built_block, Generator.newPoAData in Hnext.
    rewrite Hround in Hnext.
    cbn [nb_setup nb_last nb_current nb_since round_initial_subtime
         subblock_subtime subblock_index aggregator_index] in Hnext.
    rewrite Hval, <- Hn, Hsame in Hnext.
    rewrite rollover_steps_same in Hnext by lia.
    assert (Hi : subblock_intervals (Generator.poaSetup q)
                 <= n * subblock_intervals (Generator.poaSetup q)) by nia.
    rewrite wrap64_small in Hnext by lia.
    rewrite wrap64_sum_small in Hnext by nia.
    destruct (Hnext Hover) as (_ & _ & Hwait). lia.
Qed.

Lemma generator_yes_too_early_for_same_aggregator_witness :
  Generator.shouldIssueNewBlock 1105
    (Samples.infos_of (Build.info 1000 1000 0 0) 0) = Generator.Yes
  /\ check_new_block
       (Generator.built_block 1105
          (Samples.infos_of (Build.info 1000 1000 0 0) 0)
          (Build.since_timestamp 1105))
     = ERROR_ENCODING.
Proof.
  apply (generator_yes_too_early_for_same_aggregator 1105
           (Build.since_timestamp 1105)
           (Samples.infos_of (Build.info 1000 1000 0 0) 0));
    vm_compute; try reflexivity; try discriminate;
    try (split; [discriminate | reflexivity]).
Defined.

(** X26.  When the generator continues the current round, it writes the last
    subblock time plus one, whatever the median time is.  From a last
    state whose subblock time is not before its round's start, the state
    written passes the round checks of the script exactly when that time
    is still inside the interval. *)
Theorem generator_continuation_passes_iff (medianTime since : Z)
        (q : Generator.PoAInfos) :
  let setup := Generator.poaSetup q in
  let last := Generator.poaData q in
  Generator.in_current_round medianTime q = true ->
  0 <= round_initial_subtime last <= subblock_subtime last ->
  0 <= subblock_intervals setup ->
  round_initial_subtime last + subblock_intervals setup < 2 ^ 64 ->
  0 <= subblock_index last ->
  subblocks_per_interval setup <= 2 ^ 32 ->
  interval_uses_seconds setup = true ->
  Z.shiftr since 56 = 64 ->
  since_value since = subblock_subtime last + 1 ->
  Generator.shouldIssueNewBlock medianTime q = Generator.YesIfFull
  /\ (check_new_block (Generator.built_block medianTime q since) = CKB_SUCCESS
      <-> subblock_subtime last + 1
          < round_initial_subtime last + subblock_intervals setup).
Proof.
  cbv zeta. intros Hround Hlast Hint Hsum Hidx Hper Hsec Hmode Hval.
  split; [unfold Generator.shouldIssueNewBlock; rewrite Hround; reflexivity|].
  pose proof Hround as Hcur. unfold Generator.in_current_round in Hcur.
  apply andb_true_iff in Hcur. destruct Hcur as [_ Hroom].
  apply Z.ltb_lt in Hroom.
  split.
  - intros Hacc.
    destruct (check_new_block_accepts _ Hacc) as (_ & _ & _ & Hnext).
    unfold Generator.built_block, Generator.newPoAData in Hnext.
    rewrite Hround in Hnext.
    cbn [nb_setup nb_last nb_current nb_since round_initial_subtime
         subblock_subtime subblock_index aggregator_index] in Hnext.
    rewrite Hval, wrap64_small in Hnext by lia.
    destruct (Z.lt_ge_cases (subblock_subtime (Generator.poaData q) + 1)
                (round_initial_subtime (Generator.poaData q)
                 + subblock_intervals (Generator.poaSetup q))) as [Hin | Hout];
      [exact Hin|].
    destruct (Hnext Hout) as (Hopen & _). lia.
  - intros Hin. apply check_new_block_complete.
    unfold Generator.built_block, Generator.newPoAData. rewrite Hround.
    cbn [nb_setup nb_last nb_current nb_since round_initial_subtime
         subblock_subtime subblock_index aggregator_index].
    rewrite Hsec, Hval, wrap64_small by lia.
    split; [exact Hmode|]. split; [reflexivity|]. left.
    split; [exact Hin|]. split; [reflexivity|]. split; [lia|].
    split; [reflexivity|]. split; [|exact Hroom].
    symmetry. apply wrap32_small. lia.
Qed.

Lemma generator_continuation_passes_iff_witness :
  check_new_block
    (Generator.built_block 1050 (Samples.infos_of (Build.info 1000 1000 0 0) 0)
                           (Build.since_timestamp 1001))
  = CKB_SUCCESS
  <-> 1000 + 1 < 1000 + 100.
Proof.
  apply (generator_continuation_passes_iff 1050 (Build.since_timestamp 1001)
           (Samples.infos_of (Build.info 1000 1000 0 0) 0));
    vm_compute; try reflexivity; try discriminate;
    try (split; discriminate).
Defined.

(** ** The round state as an invariant *)

Lemma since_value_range (since : Z) :
  0 <= since -> 0 <= since_value since < 2 ^ 56.
Proof.
  intros Hs. unfold since_value.
  change (2 ^ 56 - 1) with (Z.ones 56). rewrite Z.land_ones by lia.
  apply Z.mod_pos_bound. lia.
Qed.

(** X23.  An accepted block keeps the round state well formed and never sets
    the clock back: from a well-formed last state, with a positive interval
    and at least one subblock allowed per interval, the new state is well
    formed, its subblock time is not before the last one, and it either
    stays in the last round or opens a round at least one interval after
    the start of the last. *)
Theorem accepted_block_keeps_round_state (tx : Transaction) (nb : NewBlock) :
  block_production tx nb ->
  main tx = CKB_SUCCESS ->
  round_state_ok (nb_setup nb) (nb_last nb) ->
  0 < subblock_intervals (nb_setup nb) ->
  0 < subblocks_per_interval (nb_setup nb) ->
  round_state_ok (nb_setup nb) (nb_current nb)
  /\ subblock_subtime (nb_last nb) <= subblock_subtime (nb_current nb)
  /\ (round_initial_subtime (nb_current nb) = round_initial_subtime (nb_last nb)
      \/ round_initial_subtime (nb_last nb) + subblock_intervals (nb_setup nb)
         <= round_initial_subtime (nb_current nb)).
Proof.
  intros Hbp Hmain (Hagg & Hstart & Hend & Hbits & Hidx) Hint Hper.
  destruct (main_accepts_new_block tx nb Hbp Hmain) as [Hcheck _].
  destruct Hbp as (args & dep & _ & _ & _ & Hload).
  pose proof (load_new_block_range tx args dep nb Hload)
    as (Hrit & _ & _ & Hcur & _ & Hi).
  destruct (load_new_block_inv tx args dep nb Hload)
    as (_ & g & rest & bytes & _ & _ & _ & Hsince).
  assert (Hnonneg : 0 <= nb_since nb).
  { rewrite Hsince. apply le_decode_range. }
  pose proof (since_value_range _ Hnonneg) as Hval.
  destruct (check_new_block_accepts nb Hcheck) as (_ & Htime & Hsame & Hnext).
  rewrite wrap64_small in Hsame, Hnext by lia.
  unfold round_state_ok.
  destruct (Z.lt_ge_cases (since_value (nb_since nb))
              (round_initial_subtime (nb_last nb)
               + subblock_intervals (nb_setup nb))) as [Hlt | Hge].
  - destruct (Hsame Hlt) as (H1 & H2 & H3 & _ & H5).
    repeat split; try lia.
  - destruct (Hnext Hge) as (H1 & H2 & _).
    repeat split; try lia.
Qed.

Lemma accepted_block_keeps_round_state_witness :
  round_state_ok (nb_setup Build.rollover_block) (nb_current Build.rollover_block).
Proof.
  apply (accepted_block_keeps_round_state Build.rollover_tx Build.rollover_block).
  - exists (Build.setup_id ++ Build.data_id), 0.
    repeat split; vm_compute; reflexivity.
  - vm_compute. reflexivity.
  - vm_compute. repeat split; discriminate.
  - vm_compute. reflexivity.
  - vm_compute. reflexivity.
Defined.

(** X7.  The 22 bytes of a PoA data cell decode to the values they were laid
    out from: two 64-bit times, a 32-bit subblock index and a 16-bit
    aggregator index, all little-endian. *)
Theorem subblock_info_of_layout (info : SubblockInfo) :
  0 <= round_initial_subtime info < 2 ^ 64 ->
  0 <= subblock_subtime info < 2 ^ 64 ->
  0 <= subblock_index info < 2 ^ 32 ->
  0 <= aggregator_index info < 2 ^ 16 ->
  length (Build.subblock_bytes info) = 22%nat
  /\ subblock_info_of (Build.subblock_bytes info) = info.
Proof.
  intros Hrit Hst Hidx Hagg. split.
  - unfold Build.subblock_bytes. rewrite !length_app, !le_encode_length.
    reflexivity.
  - destruct info as [rit st idx agg].
    cbn [round_initial_subtime subblock_subtime subblock_index aggregator_index]
      in *.
    unfold subblock_info_of, Build.subblock_bytes, read_le, slice.
    cbn [round_initial_subtime subblock_subtime subblock_index aggregator_index
         app skipn le_encode firstn].
    f_equal.
    + change (le_decode (le_encode 8 rit) = rit). apply le_decode_encode. exact Hrit.
    + change (le_decode (le_encode 8 st) = st). apply le_decode_encode. exact Hst.
    + change (le_decode (le_encode 4 idx) = idx). apply le_decode_encode. exact Hidx.
    + change (le_decode (le_encode 2 agg) = agg). apply le_decode_encode. exact Hagg.
Qed.

Lemma subblock_info_of_layout_witness :
  subblock_info_of (Build.subblock_bytes (Build.info 1000 1050 1 0))
  = Build.info 1000 1050 1 0.
Proof.
  apply (subblock_info_of_layout (Build.info 1000 1050 1 0));
    vm_compute; split; try discriminate; reflexivity.
Defined.

(** ** [pushAndFix] *)

(** X27.  [pushAndFix] appends the cell to the list it is given the name of and
    leaves the other list and the remaining fields alone; the fixed entry
    it adds names that list and points at the cell just pushed; and if
    every fixed entry pointed inside its list before, every one does
    afterwards. *)
Theorem pushAndFix_fixes_pushed_cell {C Others : Type}
        (tx : Skeleton.TransactionSkeleton C Others) (cell : C)
        (f : Skeleton.Field) :
  let tx' := Skeleton.pushAndFix tx cell f in
  Skeleton.get tx' f = Skeleton.get tx f ++ [cell]
  /\ (forall g, g <> f -> Skeleton.get tx' g = Skeleton.get tx g)
  /\ Skeleton.others tx' = Skeleton.others tx
  /\ (exists e,
         Skeleton.fixedEntries tx' = Skeleton.fixedEntries tx ++ [e]
         /\ Skeleton.field e = f
         /\ nth_error (Skeleton.get tx' f) (Skeleton.index e) = Some cell)
  /\ (Skeleton.entries_in_range tx -> Skeleton.entries_in_range tx').
Proof.
  cbv zeta. split; [destruct f; reflexivity|].
  split; [intros g Hg; destruct f, g; try reflexivity; contradiction|].
  split; [destruct f; reflexivity|].
  split.
  - exists {| Skeleton.field := f;
              Skeleton.index := length (Skeleton.get tx f) |}.
    split; [destruct f; reflexivity|]. split; [reflexivity|].
    cbn [Skeleton.index].
    replace (Skeleton.get (Skeleton.pushAndFix tx cell f) f)
      with (Skeleton.get tx f ++ [cell]) by (destruct f; reflexivity).
    rewrite nth_error_app2 by lia. rewrite Nat.sub_diag. reflexivity.
  - unfold Skeleton.entries_in_range. intros Hok.
    replace (Skeleton.fixedEntries (Skeleton.pushAndFix tx cell f))
      with (Skeleton.fixedEntries tx
            ++ [ {| Skeleton.field := f;
                    Skeleton.index := length (Skeleton.get tx f) |} ])
      by (destruct f; reflexivity).
    apply Forall_app. split.
    + rewrite Forall_forall in *. intros e He. specialize (Hok e He).
      destruct f, (Skeleton.field e) eqn:Hfe;
        cbn [Skeleton.get Skeleton.pushAndFix Skeleton.inputs Skeleton.outputs]
          in *;
        rewrite ?length_app; cbn [length]; lia.
    + constructor; [|constructor]. cbn [Skeleton.field Skeleton.index].
      destruct f;
        cbn [Skeleton.get Skeleton.pushAndFix Skeleton.inputs Skeleton.outputs];
        rewrite length_app; cbn [length]; lia.
Qed.

(** ** Instances of the lemmas above *)

Lemma zero_threshold_rejects_within_32_witness :
  (validate_consensus_signing Samples.three_identities 2 3 0 Samples.signers_0_2
   =? CKB_SUCCESS) = false.
Proof.
  apply Z.eqb_neq.
  apply (zero_threshold_rejects_within_32 Samples.three_identities 2 3); lia.
Defined.

Lemma two_identities_need_both_witness :
  (validate_consensus_signing [xa0; xa0; xa1; xa1] 2 2 2
     [Build.plain_cell (Build.lock_hash_of xa0);
      Build.plain_cell (Build.lock_hash_of xa0)]
   =? CKB_SUCCESS) = false.
Proof.
  apply Z.eqb_neq.
  apply (two_identities_need_both [xa0; xa0; xa1; xa1] 2).
  - lia.
  - intros Hb. unfold backed_by in Hb. apply Exists_exists in Hb.
    destruct Hb as (c & Hin & _ & Hsigned).
    cbn [In] in Hin. destruct Hin as [<- | [<- | []]];
      vm_compute in Hsigned; discriminate Hsigned.
Defined.

Lemma same_round_continuation_exact_witness :
  subblock_index (nb_current Build.same_round_block)
  = subblock_index (nb_last Build.same_round_block) + 1.
Proof.
  assert (Hbp : block_production Build.same_round_tx Build.same_round_block).
  { exists (Build.setup_id ++ Build.data_id), 0.
    repeat split; vm_compute; reflexivity. }
  assert (Hmain : main Build.same_round_tx = CKB_SUCCESS)
    by (vm_compute; reflexivity).
  assert (Hsum : round_initial_subtime (nb_last Build.same_round_block)
                 + subblock_intervals (nb_setup Build.same_round_block) < 2 ^ 64)
    by (vm_compute; reflexivity).
  assert (Hroom : subblock_index (nb_last Build.same_round_block) < 2 ^ 32 - 1)
    by (vm_compute; reflexivity).
  assert (Hsame : since_value (nb_since Build.same_round_block)
                  < round_initial_subtime (nb_last Build.same_round_block)
                    + subblock_intervals (nb_setup Build.same_round_block))
    by (vm_compute; reflexivity).
  destruct (same_round_continuation_exact _ _ Hbp Hmain Hsum Hroom Hsame)
    as (_ & _ & _ & Hidx & _).
  exact Hidx.
Defined.

Lemma rollover_exact_witness :
  round_initial_subtime (nb_last Build.rollover_block)
  + 1 * subblock_intervals (nb_setup Build.rollover_block)
  <= since_value (nb_since Build.rollover_block).
Proof.
  assert (Hbp : block_production Build.rollover_tx Build.rollover_block).
  { exists (Build.setup_id ++ Build.data_id), 0.
    repeat split; vm_compute; reflexivity. }
  assert (Hmain : main Build.rollover_tx = CKB_SUCCESS)
    by (vm_compute; reflexivity).
  assert (Hlast : aggregator_index (nb_last Build.rollover_block)
                  < aggregator_number (nb_setup Build.rollover_block))
    by (vm_compute; reflexivity).
  assert (Hsum : round_initial_subtime (nb_last Build.rollover_block)
                 + aggregator_number (nb_setup Build.rollover_block)
                   * subblock_intervals (nb_setup Build.rollover_block) < 2 ^ 64)
    by (vm_compute; reflexivity).
  assert (Hnext : round_initial_subtime (nb_last Build.rollover_block)
                  + subblock_intervals (nb_setup Build.rollover_block)
                  <= since_value (nb_since Build.rollover_block))
    by (vm_compute; discriminate).
  destruct (rollover_exact _ _ Hbp Hmain Hlast Hsum Hnext) as (_ & _ & Hwait).
  exact Hwait.
Defined.

(** ** The new setup is free *)

(** X12.  On the consensus path nothing is asked of the new setup beyond being
    locatable and decodable: when [main] accepts a change of the setup, it
    accepts the same transaction with any other output side on which the
    setup cell is found and its data decodes, whatever identities, counts,
    threshold and timing that data holds. *)
Theorem setup_change_new_setup_is_free (tx : Transaction) (old_setup : PoASetup)
        (outputs' : list Cell) (args : list byte) (index' : Z)
        (new_setup' : PoASetup) :
  authority_change tx old_setup ->
  main tx = CKB_SUCCESS ->
  script_args (tx_script tx) = Some args ->
  look_for_poa_cell args outputs' = Ok index' ->
  load_poa_setup outputs' index' = Ok new_setup' ->
  main {| tx_script := tx_script tx;
          tx_cell_deps := tx_cell_deps tx;
          tx_inputs := tx_inputs tx;
          tx_outputs := outputs';
          tx_group_inputs := tx_group_inputs tx;
          tx_group_outputs := tx_group_outputs tx |} = CKB_SUCCESS.
Proof.
  intros (args0 & i & Hret & Hargs0 & Hdep & Hin & Hold) Hmain Hargs Hout' Hnew'.
  rewrite Hargs in Hargs0. injection Hargs0 as <-.
  unfold main in *.
  cbn [tx_script tx_cell_deps tx_inputs tx_outputs tx_group_inputs
       tx_group_outputs].
  destruct (negb (ckb_load_cell_probe (tx_group_inputs tx) 1
                  =? CKB_INDEX_OUT_OF_BOUND)); [discriminate|].
  destruct (negb (ckb_load_cell_probe (tx_group_outputs tx) 1
                  =? CKB_INDEX_OUT_OF_BOUND)); [discriminate|].
  rewrite Hret, Hargs in *. cbn [negb Z.eqb CKB_SUCCESS] in *.
  destruct (negb (Z.of_nat (length args) =? 64)); [discriminate|].
  rewrite Hdep in *.
  change (negb (CKB_INDEX_OUT_OF_BOUND =? CKB_INDEX_OUT_OF_BOUND)) with false
    in *. cbv iota in *.
  unfold main_consensus in *.
  cbn [tx_script tx_cell_deps tx_inputs tx_outputs tx_group_inputs
       tx_group_outputs].
  rewrite Hin, Hold in *. rewrite Hout', Hnew'.
  destruct (look_for_poa_cell args (tx_outputs tx)) as [o | e] eqn:Hout.
  2:{ exfalso. exact (look_for_poa_cell_error _ _ _ Hout Hmain). }
  destruct (load_poa_setup (tx_outputs tx) o) as [new_setup | e] eqn:Hnew.
  2:{ exfalso. exact (load_poa_setup_error _ _ _ Hnew Hmain). }
  exact Hmain.
Qed.

Lemma setup_change_new_setup_is_free_witness :
  main {| tx_script := tx_script Samples.change_tx;
          tx_cell_deps := tx_cell_deps Samples.change_tx;
          tx_inputs := tx_inputs Samples.change_tx;
          tx_outputs := [ Build.poa_cell Build.setup_id (Build.lock_hash_of xff)
                                         Samples.nameless_aggregators ];
          tx_group_inputs := tx_group_inputs Samples.change_tx;
          tx_group_outputs := tx_group_outputs Samples.change_tx |}
  = CKB_SUCCESS.
Proof.
  apply (setup_change_new_setup_is_free Samples.change_tx
           (poa_setup_of Build.three_aggregators)
           [ Build.poa_cell Build.setup_id (Build.lock_hash_of xff)
                            Samples.nameless_aggregators ]
           (Build.setup_id ++ Build.data_id) 0
           (poa_setup_of Samples.nameless_aggregators)).
  - exists (Build.setup_id ++ Build.data_id), 0.
    repeat split; vm_compute; reflexivity.
  - vm_compute. reflexivity.
  - reflexivity.
  - vm_compute. reflexivity.
  - vm_compute. reflexivity.
Defined.
